(** * Dispersion_Functions: portfolio return and dispersion statistics

    A shallow embedding of [Dispersion/Dispersion_Functions.py] and the
    properties of its functions.

    Numbers.  The functions are duck-typed; the embedding is the code in
    exact arithmetic: numbers are rationals ([Q], compared with [==]), and
    the square root taken by [dispersion_calc] is the real one ([sqrt] on
    [R]).  Table cells keep, besides the rationals, the three non-finite
    floats that division by zero and missing data produce (the two
    infinities and NaN).  What binary64 adds to exact arithmetic (rounding,
    overflow to an infinity or to [OverflowError], underflow to zero, the
    sign of zero) is not modelled: a numeric property below is a property
    of the code in exact arithmetic, and says so.

    Tables.  A pandas [DataFrame] is its [columns] (the labels), its
    [index] (one label per row) and its [values] (the rows of cells).

    Effects.  Python lists are objects: a variable holds a reference into a
    store, and [list.append] updates the object in place.  Functions that
    only read their arguments are pure functions; [return_portfolio_values],
    which appends to its argument, runs in a small state and exception
    monad. *)

From stdpp Require Import gmap strings list.
From Stdlib Require Import QArith Qreals Reals Psatz Sorted.

Local Open Scope Q_scope.

(** ** Exceptions and results *)

Inductive exn := IndexError | TypeError | ZeroDivisionError | KeyError.

Inductive result (A : Type) := Ok (a : A) | Raise (e : exn).
Arguments Ok {A} a.
Arguments Raise {A} e.

Definition result_bind {A B} (m : result A) (k : A → result B) : result B :=
  match m with Ok a => k a | Raise e => Raise e end.

#[global] Instance result_ret : MRet result := λ A a, Ok a.
#[global] Instance result_mbind : MBind result := λ A B k m, result_bind m k.

(** [[f(x) for x in l]] where [f] may raise: elements are evaluated from
    left to right and the first exception ends the comprehension. *)
Fixpoint comprehension {A B} (f : A → result B) (l : list A) : result (list B) :=
  match l with
  | [] => Ok []
  | x :: l' => y ← f x; ys ← comprehension f l'; mret (y :: ys)
  end.

(** ** Rational arithmetic as the Python operators use it *)

#[global] Instance Q_equiv : Equiv Q := Qeq.

(** The builtin [sum]: a left fold that starts from [0]. *)
Definition sum (l : list Q) : Q := foldl Qplus 0 l.

(** [x / y] on Python numbers raises [ZeroDivisionError] for a zero divisor. *)
Definition py_div (x y : Q) : result Q :=
  if Qeq_bool y 0 then Raise ZeroDivisionError else Ok (x / y).

(** The value of [x ** 0.5] for a real [x]: the real square root of a
    non-negative [x]; for a negative [x] Python 3 returns a complex number
    (and numpy returns NaN), in either case not a real number. *)
Inductive root := Real (r : R) | Complex.

Definition pow_half (x : Q) : root :=
  if Qle_bool 0 x then Real (sqrt (Q2R x)) else Complex.

(** ** The list functions *)

(** [sum([x * y for x, y in zip(component_returns, weights)])], on exact
    rationals. *)
Definition weighted_average_return (component_returns weights : list Q) : Q :=
  sum (zip_with (λ x y, x * y) component_returns weights).

(** The sum under the root of [dispersion_calc]. *)
Definition radicand (component_returns weights : list Q) (portfolio_return : Q) : Q :=
  sum (zip_with (λ x y, y * (x - portfolio_return) ^ 2) component_returns weights).

(** [portfolio_return] is [None] when the caller leaves it out.  The
    inputs are exact rationals and the root is the real one: a NaN among the
    inputs, the [OverflowError] of [** 2] and the underflow of a small
    positive sum to 0 are float behaviour outside this embedding. *)
Definition dispersion_calc (component_returns weights : list Q)
    (portfolio_return : option Q) : root :=
  let portfolio_return :=
    match portfolio_return with
    | None => weighted_average_return component_returns weights
    | Some r => r
    end in
  pow_half (radicand component_returns weights portfolio_return).

(** [[x / sum(portfolio_values) for x in portfolio_values]] *)
Definition portfolio_weights (portfolio_values : list Q) : result (list Q) :=
  comprehension (λ x, py_div x (sum portfolio_values)) portfolio_values.

(** ** Numbers in table cells *)

(** A numeric cell: a finite number (held as an exact rational, without
    the rounding and the range of float64), an infinity, or NaN (pandas'
    marker of a missing value). *)
Inductive pyfloat := Fin (x : Q) | Inf (negative : bool) | NaN.

Definition isna (a : pyfloat) : bool :=
  match a with NaN => true | _ => false end.

Definition Qneg_bool (x : Q) : bool := negb (Qle_bool 0 x).

Definition fadd (a b : pyfloat) : pyfloat :=
  match a, b with
  | Fin x, Fin y => Fin (x + y)
  | Fin _, Inf s | Inf s, Fin _ => Inf s
  | Inf s, Inf t => if eqb s t then Inf s else NaN
  | _, _ => NaN
  end.

Definition fsub (a b : pyfloat) : pyfloat :=
  match a, b with
  | Fin x, Fin y => Fin (x - y)
  | Fin _, Inf s => Inf (negb s)
  | Inf s, Fin _ => Inf s
  | Inf s, Inf t => if eqb s t then NaN else Inf s
  | _, _ => NaN
  end.

Definition fmul (a b : pyfloat) : pyfloat :=
  match a, b with
  | Fin x, Fin y => Fin (x * y)
  | Fin x, Inf s | Inf s, Fin x =>
      if Qeq_bool x 0 then NaN else Inf (xorb s (Qneg_bool x))
  | Inf s, Inf t => Inf (xorb s t)
  | _, _ => NaN
  end.

(** numpy division: a zero divisor gives an infinity or NaN, no exception. *)
Definition fdiv (a b : pyfloat) : pyfloat :=
  match a, b with
  | Fin x, Fin y =>
      if Qeq_bool y 0
      then (if Qeq_bool x 0 then NaN else Inf (Qneg_bool x))
      else Fin (x / y)
  | Fin _, Inf _ => Fin 0
  | Inf s, Fin y => Inf (xorb s (Qneg_bool y))
  | _, _ => NaN
  end.

(** ** Python values held by lists and by mixed-type rows *)

Definition Date := Z.

Inductive value := VFloat (f : pyfloat) | VStamp (d : Date).

(** [+] and [*] on a number and a [Timestamp] raise [TypeError]. *)
Definition py_add (v w : value) : result value :=
  match v, w with
  | VFloat a, VFloat b => Ok (VFloat (fadd a b))
  | _, _ => Raise TypeError
  end.

Definition py_mul (v w : value) : result value :=
  match v, w with
  | VFloat a, VFloat b => Ok (VFloat (fmul a b))
  | _, _ => Raise TypeError
  end.

(** [l[i]] for [0 <= i], and [l[-1]]. *)
Definition py_getitem {A} (l : list A) (i : nat) : result A :=
  match l !! i with Some a => Ok a | None => Raise IndexError end.

Definition py_getitem_last {A} (l : list A) : result A :=
  match last l with Some a => Ok a | None => Raise IndexError end.

(** The slices [l[1:]], [l[:-1]] and [l[-1:]]. *)
Definition from1 {A} (l : list A) : list A := drop 1 l.
Definition upto_last {A} (l : list A) : list A := take (length l - 1) l.
Definition last1 {A} (l : list A) : list A := drop (length l - 1) l.

(** [[x * y for x, y in zip(starting_values, current_returns)]] *)
Definition apply_returns (starting_values current_returns : list value)
    : result (list value) :=
  comprehension (λ '(x, y), py_mul x y) (zip starting_values current_returns).

(** ** DataFrames *)

(** [columns], [index] and [values] as pandas names them; [values] is the
    list of rows.  In a frame of pandas the index and the rows have the same
    length, every row has one cell per column, and the operations used here
    need the column labels to be distinct: see [wf_frame]. *)
Record DataFrame (I A : Type) := mkDataFrame {
  columns : list string;
  index : list I;
  values : list (list A)
}.
Arguments mkDataFrame {I A} columns index values.
Arguments columns {I A} d.
Arguments index {I A} d.
Arguments values {I A} d.

Definition wf_frame {I A} (df : DataFrame I A) : Prop :=
  NoDup (columns df) ∧ length (index df) = length (values df) ∧
  Forall (λ row, length row = length (columns df)) (values df).

(** [df.iterrows()] *)
Definition iterrows {I A} (df : DataFrame I A) : list (I * list A) :=
  zip (index df) (values df).

(** Position of a column label. *)
Definition column_position (c : string) (cols : list string) : option nat :=
  fst <$> list_find (λ c', c' = c) cols.

(** [df.iloc[i][c]]: the cell of the row at position [i] in column [c]. *)
Definition cell {I A} (df : DataFrame I A) (i : nat) (c : string) : option A :=
  row ← values df !! i; pos ← column_position c (columns df); row !! pos.

(** [fillna(method='pad')]: every missing cell takes the last value above
    it in its column; missing cells with nothing valid above stay missing. *)
Definition pad_row (prev cur : list pyfloat) : list pyfloat :=
  zip_with (λ p c, if isna c then p else c) prev cur.

Fixpoint pad_from (prev : list pyfloat) (vals : list (list pyfloat))
    : list (list pyfloat) :=
  match vals with
  | [] => []
  | row :: vals' => let row' := pad_row prev row in row' :: pad_from row' vals'
  end.

Definition fillna_pad (vals : list (list pyfloat)) : list (list pyfloat) :=
  match vals with
  | [] => []
  | row :: vals' => row :: pad_from row vals'
  end.

(** [shift(periods)]: the rows move down by [periods] (up when negative)
    under a fixed index; the rows that come free are filled with NaN. *)
Definition shift {I} (periods : Z) (df : DataFrame I pyfloat) : DataFrame I pyfloat :=
  let n := length (values df) in
  let k := Nat.min (Z.abs_nat periods) n in
  let blank := replicate k (replicate (length (columns df)) NaN) in
  mkDataFrame (columns df) (index df)
    (if (0 <=? periods)%Z then blank ++ take (n - k) (values df)
     else drop k (values df) ++ blank).

(** The argument [fill_method] of [pct_change]. *)
Inductive fill_method := pad.

(** [a / b - 1] on cells. *)
Definition change (a b : pyfloat) : pyfloat := fsub (fdiv a b) (Fin 1).

(** The values of [df.fillna(method=fill)], and of [df] itself when [fill]
    is [None]. *)
Definition filled (fill : option fill_method) (vals : list (list pyfloat))
    : list (list pyfloat) :=
  match fill with Some pad => fillna_pad vals | None => vals end.

(** [pct_change(periods=1, fill_method=fill)], as pandas defines it:
    [data = self.fillna(method=fill_method)] (or [self] when [fill_method]
    is [None]), then [data / data.shift(1) - 1]. *)
Definition pct_change {I} (fill : option fill_method) (df : DataFrame I pyfloat)
    : DataFrame I pyfloat :=
  let data := mkDataFrame (columns df) (index df) (filled fill (values df)) in
  let shifted := shift 1 data in
  mkDataFrame (columns df) (index df)
    (zip_with (zip_with change) (values data) (values shifted)).

(** [df.iloc[:-1]] *)
Definition iloc_upto_last {I A} (df : DataFrame I A) : DataFrame I A :=
  mkDataFrame (columns df) (upto_last (index df)) (upto_last (values df)).

(** A float frame seen as a frame of Python values. *)
Definition as_object {I} (df : DataFrame I pyfloat) : DataFrame I value :=
  mkDataFrame (columns df) (index df) (fmap (M:=list) (fmap (M:=list) VFloat) (values df)).

(** [df[c] = col], for a [col] with one entry per row: the column [c] is
    overwritten when the frame has it and added as the last column when it
    does not. *)
Definition setitem {I A} (c : string) (col : list A) (df : DataFrame I A)
    : DataFrame I A :=
  match column_position c (columns df) with
  | Some pos =>
      mkDataFrame (columns df) (index df)
        (zip_with (λ row x, <[pos := x]> row) (values df) col)
  | None =>
      mkDataFrame (columns df ++ [c]) (index df)
        (zip_with (λ row x, row ++ [x]) (values df) col)
  end.

(** [df.reindex(columns=new_columns)]: the cells of every row are picked by
    label; a label the frame does not have gives a missing cell. *)
Definition reindex_columns {I} (new_columns : list string) (df : DataFrame I value)
    : DataFrame I value :=
  mkDataFrame new_columns (index df)
    ((λ row, (λ c, default (VFloat NaN)
                     (pos ← column_position c (columns df); row !! pos))
             <$> new_columns) <$> values df).

(** [price_df.pct_change()] passes no [fill_method], so the default of
    pandas applies.  In the pandas releases that have [DataFrame.append]
    (removed in pandas 2.0), which [return_portfolio_values] calls, the
    signature is [pct_change(periods=1, fill_method='pad', limit=None,
    freq=None)]: missing prices are forward-filled before the division. *)
Definition pct_change_default : option fill_method := Some pad.

Definition price_df_to_returns (price_df : DataFrame Date pyfloat)
    : DataFrame Date value :=
  let returns := pct_change pct_change_default price_df in
  let end_ := from1 (index returns) in
  let returns := iloc_upto_last (shift (-1) returns) in
  let returns := setitem "End" (VStamp <$> end_) (as_object returns) in
  reindex_columns (last1 (columns returns) ++ upto_last (columns returns)) returns.

(** [price_df[price_df.index == date].values]: the rows whose index label
    is [date]. *)
Definition rows_at (date : Date) (price_df : DataFrame Date pyfloat)
    : list (list pyfloat) :=
  snd <$> filter (λ r, r.1 = date) (iterrows price_df).

(** [zip] pairs the selected rows; [(x / y) - 1] is computed on whole rows,
    cell by cell, so the result is a list of rows. *)
Definition calculate_return (start_date end_date : Date)
    (price_df : DataFrame Date pyfloat) : list (list pyfloat) :=
  (λ '(x, y), zip_with change x y)
    <$> zip (rows_at end_date price_df) (rows_at start_date price_df).

(** ** The store of Python list objects *)

Definition loc := nat.

(** A computation reads and updates the store and returns or raises; the
    store survives an exception. *)
Definition M (A : Type) : Type := gmap loc (list value) → gmap loc (list value) * result A.

#[global] Instance M_ret : MRet M := λ A a σ, (σ, Ok a).
#[global] Instance M_bind : MBind M := λ A B k m σ,
  match m σ with
  | (σ', Ok a) => k a σ'
  | (σ', Raise e) => (σ', Raise e)
  end.

Definition lift {A} (r : result A) : M A := λ σ, (σ, r).

(** A reference that the store does not hold is no state of a Python
    program; the model stops there with [KeyError]. *)
Definition read_list (l : loc) : M (list value) := λ σ,
  match σ !! l with Some vs => (σ, Ok vs) | None => (σ, Raise KeyError) end.

(** [l.append(v)]: the object behind [l] grows in place. *)
Definition list_append (l : loc) (v : value) : M unit := λ σ,
  match σ !! l with
  | Some vs => (<[l := vs ++ [v]]> σ, Ok ())
  | None => (σ, Raise KeyError)
  end.

(** ** Building the table of values *)

(** [{x: y for x, y in zip(keys, vals)}]: a later pair overwrites an earlier
    one with the same key. *)
Definition dict (keys : list string) (vals : list value) : gmap string value :=
  foldl (λ m kv, <[kv.1 := kv.2]> m) ∅ (zip keys vals).

(** [pd.DataFrame(columns=cols)] *)
Definition empty_frame (cols : list string) : DataFrame nat value :=
  mkDataFrame cols [] [].

(** [df.append(new_data, ignore_index=True)] for a dict whose keys are
    columns of [df]: one more row, aligned by label, missing where the dict
    has no entry; the index is renumbered from 0. *)
Definition append (df : DataFrame nat value) (new_data : gmap string value)
    : DataFrame nat value :=
  mkDataFrame (columns df) (seq 0 (S (length (values df))))
    (values df ++ [(λ c, default (VFloat NaN) (new_data !! c)) <$> columns df]).

(** The dtype of the row that [iterrows] yields.  [iterrows] builds
    [Series(v)] from the row [v] of the object array [df.values], and the
    constructor infers the dtype of an object array (pandas 1.x,
    [maybe_infer_to_datetimelike]): when some cell is a [Timestamp] and
    every other cell is a [Timestamp] or missing, the row becomes a
    [datetime64] Series and its missing cells become [NaT]; any other row
    stays a Series of Python objects. *)
Definition is_stamp (v : value) : bool :=
  match v with VStamp _ => true | VFloat _ => false end.

Definition is_missing (v : value) : bool :=
  match v with VFloat a => isna a | VStamp _ => false end.

Definition datetime_row (row : list value) : bool :=
  existsb is_stamp row && forallb (λ v, is_stamp v || is_missing v) row.

(** [row[1:] + 1]: an integer cannot be added to a [datetime64] Series,
    whatever its length ([TypeError]); on a Series of objects the addition
    is done cell by cell. *)
Definition add_1_from1 (row : list value) : result (list value) :=
  if datetime_row row then Raise TypeError
  else comprehension (λ r, py_add r (VFloat (Fin 1))) (from1 row).

(** The body of [for index, row in returns.iterrows()], with the loop
    variables [x] and [values_df] passed along. *)
Fixpoint iterrows_loop (cols : list string) (rows : list (Date * list value))
    (x : list value) (values_df : DataFrame nat value)
    : result (DataFrame nat value) :=
  match rows with
  | [] => Ok values_df
  | (_, row) :: rows' =>
      gross ← add_1_from1 row;
      ending_values ← apply_returns x gross;
      let x := ending_values in
      row0 ← py_getitem row 0;
      let values_to_add := [row0] ++ ending_values in
      let new_data := dict cols values_to_add in
      let values_df := append values_df new_data in
      iterrows_loop cols rows' x values_df
  end.

Definition return_portfolio_values (starting_values : loc)
    (returns : DataFrame Date value) : M (DataFrame nat value) :=
  let cols := columns returns in
  date0 ← lift (py_getitem (index returns) 0);
  list_append starting_values (VStamp date0);;
  appended ← read_list starting_values;
  last_value ← lift (py_getitem_last appended);
  let starting_values := [last_value] ++ upto_last appended in
  let values_df := empty_frame cols in
  let new_data := dict cols starting_values in
  let values_df := append values_df new_data in
  let x := from1 starting_values in
  lift (iterrows_loop cols (iterrows returns) x values_df).

(** ** Vocabulary of the properties *)

(** Cells and values are compared up to the value of their rationals
    ([2 # 4] and [1 # 2] are the same number).  [≡] relates a missing cell
    to a missing cell: it compares what a table holds, it is not the [==]
    of floats. *)
#[global] Instance pyfloat_equiv : Equiv pyfloat := λ a b,
  match a, b with
  | Fin x, Fin y => x == y
  | Inf s, Inf t => s = t
  | NaN, NaN => True
  | _, _ => False
  end.

#[global] Instance value_equiv : Equiv value := λ v w,
  match v, w with
  | VFloat a, VFloat b => a ≡ b
  | VStamp d, VStamp e => d = e
  | _, _ => False
  end.

(** The changes from each row to the next. *)
Definition periods (vals : list (list pyfloat)) : list (list pyfloat) :=
  zip_with (zip_with change) (drop 1 vals) vals.

(** [df[c]]: the cells of column [c], from the first row to the last. *)
Definition column {I A} (df : DataFrame I A) (c : string) : list A :=
  omap (λ row, pos ← column_position c (columns df); row !! pos) (values df).

(** The PriceTable of the data model: a well-formed frame whose dates
    strictly increase and whose prices are positive where they are not
    missing. *)
Definition PriceTable (df : DataFrame Date pyfloat) : Prop :=
  wf_frame df ∧ StronglySorted Z.lt (index df) ∧
  Forall (Forall (λ a, match a with Fin x => 0 < x | Inf _ => False | NaN => True end))
    (values df).

(** A table without missing prices. *)
Definition complete (df : DataFrame Date pyfloat) : Prop :=
  Forall (Forall (λ a, isna a = false)) (values df).

(** The compounded return of a sequence of per-period returns: the product
    of [1 + r] over the periods, minus 1. *)
Definition compound (returns : list pyfloat) : pyfloat :=
  fsub (foldl (λ acc r, fmul acc (fadd (Fin 1) r)) (Fin 1) returns) (Fin 1).

(** A row of present prices. *)
Definition priced (row : list pyfloat) : Prop :=
  Forall (λ a, ∃ x, a = Fin x ∧ 0 < x) row.

(** One period of growth, [[x * y for x, y in zip(xs, rs + 1)]] on floats. *)
Definition grow (xs rs : list pyfloat) : list pyfloat :=
  zip_with fmul xs ((λ r, fadd r (Fin 1)) <$> rs).

(** The row of a ReturnTable with end date [d] and returns [rs]. *)
Definition period_row (p : Date * list pyfloat) : list value :=
  VStamp p.1 :: (VFloat <$> p.2).

(** The rows that follow the seed row: each period's values are the
    previous values grown by the period's returns. *)
Fixpoint path (xs : list pyfloat) (ps : list (Date * list pyfloat))
    : list (list value) :=
  match ps with
  | [] => []
  | p :: ps' => let xs' := grow xs p.2 in period_row (p.1, xs') :: path xs' ps'
  end.

(** The ReturnTable that [return_portfolio_values] expects: a well-formed
    frame whose first column holds the end dates and whose other columns
    hold floats. *)
Definition ReturnTable (returns : DataFrame Date value) : Prop :=
  wf_frame returns ∧
  Forall (λ row, ∃ d rs, row = VStamp d :: (VFloat <$> rs)) (values returns).

(** The last price of a column that is present on or before position [i];
    missing when the column has no price there or above. *)
Definition last_valid (col : list pyfloat) (i : nat) : pyfloat :=
  default NaN (last (filter (λ a, isna a = false) (take (S i) col))).

(** A row in which some return is present (not missing). *)
Definition has_return (row : list value) : Prop :=
  ∃ a : pyfloat, VFloat a ∈ row ∧ isna a = false.

(** A row that holds a date and then finite numbers that satisfy [P]. *)
Definition dated_row (P : Q → Prop) (row : list value) : Prop :=
  ∃ (d : Date) (qs : list Q), row = VStamp d :: ((VFloat ∘ Fin) <$> qs) ∧ Forall P qs.

(** An end date with finite returns, as a period of a ReturnTable. *)
Definition finite_period (p : Date * list Q) : Date * list pyfloat :=
  (p.1, Fin <$> p.2).

(** A cell of a PriceTable: a positive price or a missing one. *)
Definition price_cell (a : pyfloat) : Prop :=
  match a with Fin x => 0 < x | Inf _ => False | NaN => True end.

(** ** Example tables *)

(** Prices of assets A and B on three dates. *)
Definition example_prices : DataFrame Date pyfloat :=
  mkDataFrame ["A"; "B"] [0; 1; 2]%Z
    [[Fin 100; Fin 50]; [Fin 105; Fin 48]; [Fin 110; Fin 52]].

(** Asset B is first priced on the last date. *)
Definition late_listing : DataFrame Date pyfloat :=
  mkDataFrame ["A"; "B"] [0; 1; 2]%Z
    [[Fin 100; NaN]; [Fin 110; NaN]; [Fin 99; Fin 7]].

(** Two periods of one asset: +10% and then -10%. *)
Definition example_returns : DataFrame Date value :=
  mkDataFrame ["End"; "A"] [0; 1]%Z
    [[VStamp 1%Z; VFloat (Fin (1 # 10))]; [VStamp 2%Z; VFloat (Fin (- 1 # 10))]].

(** * Properties *)

(** Well-formedness of a frame that is written out. *)
Ltac frame_wf :=
  split; [|split]; simpl;
  [by apply (bool_decide_unpack _) | done | by repeat constructor].

(** ** Equality of cells *)

#[global] Instance pyfloat_equivalence : Equivalence (≡@{pyfloat}).
Proof.
  split.
  - by intros [x|s|].
  - by intros [x|s|] [y|t|].
  - intros [x|s|] [y|t|] [z|u|] H1 H2; try done.
    + exact (Qeq_trans _ _ _ H1 H2).
    + exact (eq_trans H1 H2).
Qed.

#[global] Instance value_equivalence : Equivalence (≡@{value}).
Proof.
  split.
  - intros [a|d]; [exact (reflexivity (R := (≡@{pyfloat})) a) | exact eq_refl].
  - intros [a|d] [b|e] H; try done.
    exact (symmetry (R := (≡@{pyfloat})) H).
  - intros [a|d] [b|e] [c|f] H1 H2; try done.
    + exact (transitivity (R := (≡@{pyfloat})) H1 H2).
    + exact (eq_trans H1 H2).
Qed.

(** ** Sums *)

Lemma foldl_Qplus_acc (l : list Q) (a : Q) : foldl Qplus a l == a + sum l.
Proof.
  unfold sum. revert a. induction l as [|x l IH]; intros a; simpl.
  - ring.
  - rewrite (IH (a + x)), (IH (0 + x)). ring.
Qed.

Lemma sum_cons (x : Q) (l : list Q) : sum (x :: l) == x + sum l.
Proof. unfold sum at 1. simpl. rewrite foldl_Qplus_acc. ring. Qed.

Lemma sum_nonneg (l : list Q) : Forall (λ x, 0 <= x) l → 0 <= sum l.
Proof.
  induction 1 as [|x l Hx _ IH]; [unfold sum; simpl; lra|].
  rewrite sum_cons. lra.
Qed.

Lemma sum_zero_iff (l : list Q) :
  Forall (λ x, 0 <= x) l → sum l == 0 ↔ Forall (λ x, x == 0) l.
Proof.
  induction 1 as [|x l Hx Hl IH].
  - split; [constructor | reflexivity].
  - rewrite sum_cons. pose proof (sum_nonneg l Hl) as Hs. split.
    + intros H. constructor; [lra|]. apply IH. lra.
    + intros H. inversion H as [|? ? H1 H2]; subst. apply IH in H2. lra.
Qed.

Lemma sum_scale (c : Q) (l : list Q) : sum ((λ x, x * c) <$> l) == sum l * c.
Proof.
  induction l as [|x l IH]; [unfold sum; simpl; ring|].
  rewrite fmap_cons, !sum_cons, IH. ring.
Qed.

(** ** Weights *)

Lemma py_div_nonzero (x y : Q) : ¬ y == 0 → py_div x y = Ok (x / y).
Proof.
  intros H. unfold py_div. destruct (Qeq_bool y 0) eqn:E; [|done].
  apply Qeq_bool_iff in E. done.
Qed.

Lemma py_div_zero (x y : Q) : y == 0 → py_div x y = Raise ZeroDivisionError.
Proof.
  intros H. unfold py_div. apply Qeq_bool_iff in H. by rewrite H.
Qed.

Lemma comprehension_ok {A B} (f : A → result B) (g : A → B) (l : list A) :
  (∀ x, x ∈ l → f x = Ok (g x)) → comprehension f l = Ok (g <$> l).
Proof.
  induction l as [|x l IH]; intros H; [done|]. simpl.
  rewrite (H x) by left. simpl.
  rewrite IH; [done|]. intros y Hy. apply H. by right.
Qed.

Lemma portfolio_weights_ok (l : list Q) :
  ¬ sum l == 0 → portfolio_weights l = Ok ((λ x, x / sum l) <$> l).
Proof.
  intros H. unfold portfolio_weights. apply comprehension_ok.
  intros x _. by apply py_div_nonzero.
Qed.

Lemma sum_div (s : Q) (l : list Q) : sum ((λ x, x / s) <$> l) == sum l / s.
Proof.
  induction l as [|x l IH]; [unfold sum; simpl; unfold Qdiv; ring|].
  rewrite fmap_cons, !sum_cons, IH. unfold Qdiv. ring.
Qed.

(** C7.  For a sequence of position values whose sum is not zero (positive
    values are a special case), [portfolio_weights] returns a sequence of the
    same length, its element at position [i] is the input at [i] divided by
    the sum of the inputs, and the elements sum to 1 (exactly, over the
    rationals). *)
Theorem portfolio_weights_normalised (portfolio_values : list Q) :
  ¬ sum portfolio_values == 0 →
  ∃ w : list Q,
    portfolio_weights portfolio_values = Ok w ∧
    length w = length portfolio_values ∧
    (∀ (i : nat) (x : Q), portfolio_values !! i = Some x →
       w !! i = Some (x / sum portfolio_values)) ∧
    sum w == 1.
Proof.
  intros Hs. eexists. split; [by apply portfolio_weights_ok|].
  split; [by rewrite length_fmap|]. split.
  - intros i x Hx. by rewrite list_lookup_fmap, Hx.
  - rewrite sum_div. by field.
Qed.

Lemma portfolio_weights_normalised_witness :
  ∃ w : list Q,
    portfolio_weights [1; 3] = Ok w ∧ length w = 2%nat ∧
    (∀ (i : nat) (x : Q), [1; 3] !! i = Some x → w !! i = Some (x / sum [1; 3])) ∧
    sum w == 1.
Proof. apply (portfolio_weights_normalised [1; 3]). by vm_compute. Defined.

(** C10.  [portfolio_weights] is scale-invariant: for a scalar [c] other
    than zero and position values with a sum other than zero, the weights of
    the values multiplied by [c] are the weights of the values. *)
Theorem portfolio_weights_scale_invariant (c : Q) (portfolio_values : list Q) :
  ¬ c == 0 → ¬ sum portfolio_values == 0 →
  ∃ w w' : list Q,
    portfolio_weights ((λ x, x * c) <$> portfolio_values) = Ok w ∧
    portfolio_weights portfolio_values = Ok w' ∧
    w ≡ w'.
Proof.
  intros Hc Hs.
  assert (Hs' : ¬ sum ((λ x, x * c) <$> portfolio_values) == 0).
  { rewrite sum_scale. intros H. apply Hs. nra. }
  do 2 eexists. split; [by apply portfolio_weights_ok|].
  split; [by apply portfolio_weights_ok|].
  pose proof (sum_scale c portfolio_values) as Hsc.
  revert Hsc Hs Hs'.
  generalize (sum ((λ x : Q, x * c) <$> portfolio_values)).
  generalize (sum portfolio_values). intros s s' Hsc Hs Hs'.
  induction portfolio_values as [|x l IH]; [constructor|].
  simpl. constructor; [|exact IH].
  change (x * c / s' == x / s). rewrite Hsc. by field.
Qed.

Lemma portfolio_weights_scale_invariant_witness :
  ∃ w w' : list Q,
    portfolio_weights ((λ x, x * 2) <$> [1; 3]) = Ok w ∧
    portfolio_weights [1; 3] = Ok w' ∧ w ≡ w'.
Proof. apply (portfolio_weights_scale_invariant 2 [1; 3]); by vm_compute. Defined.

(** ** Dispersion *)

Lemma pow_half_nonneg (x : Q) : 0 <= x → pow_half x = Real (sqrt (Q2R x)).
Proof.
  intros H. unfold pow_half. apply Qle_bool_iff in H. by rewrite H.
Qed.

Lemma pow_half_neg (x : Q) : x < 0 → pow_half x = Complex.
Proof.
  intros H. unfold pow_half. destruct (Qle_bool 0 x) eqn:E; [|done].
  apply Qle_bool_iff in E. lra.
Qed.

Lemma Q2R_zero : Q2R 0 = 0%R.
Proof. unfold Q2R. simpl. lra. Qed.

Lemma sqrt_Q2R_zero_iff (x : Q) : 0 <= x → sqrt (Q2R x) = 0%R ↔ x == 0.
Proof.
  intros H. assert (HR : (0 <= Q2R x)%R).
  { rewrite <- Q2R_zero. by apply Qle_Rle. }
  split.
  - intros E. apply sqrt_eq_0 in E; [|done].
    apply eqR_Qeq. by rewrite E, Q2R_zero.
  - intros E. apply Qeq_eqR in E. rewrite E.
    rewrite Q2R_zero. apply sqrt_0.
Qed.

Lemma Qsquare (x : Q) : x ^ 2 = x * x.
Proof. reflexivity. Qed.

Lemma Qsquare_nonneg (x : Q) : 0 <= x * x.
Proof. nra. Qed.

Lemma deviation_nonneg (x y p : Q) : 0 <= y → 0 <= y * (x - p) ^ 2.
Proof.
  intros H. rewrite Qsquare.
  apply Qmult_le_0_compat; [done | apply Qsquare_nonneg].
Qed.

Lemma deviation_zero_iff (x y p : Q) : y * (x - p) ^ 2 == 0 ↔ x == p ∨ y == 0.
Proof.
  rewrite Qsquare. split.
  - intros H. apply Qmult_integral in H as [H|H]; [by right|left].
    apply Qmult_integral in H. lra.
  - intros [H|H]; rewrite H; ring.
Qed.

Lemma deviations_nonneg (p : Q) (component_returns weights : list Q) :
  Forall (λ y, 0 <= y) weights →
  Forall (λ x, 0 <= x)
    (zip_with (λ x y, y * (x - p) ^ 2) component_returns weights).
Proof.
  intros H. revert component_returns.
  induction H as [|y ws Hy _ IH]; intros [|x xs]; simpl; try constructor.
  - by apply deviation_nonneg.
  - apply IH.
Qed.

Lemma deviations_zero_iff (p : Q) (component_returns weights : list Q) :
  Forall (λ d, d == 0) (zip_with (λ x y, y * (x - p) ^ 2) component_returns weights) ↔
  Forall (λ xy, xy.1 == p ∨ xy.2 == 0) (zip component_returns weights).
Proof.
  revert weights. induction component_returns as [|x xs IH]; intros [|y ws]; simpl;
    try (split; intros _; constructor; fail).
  rewrite !Forall_cons, IH. pose proof (deviation_zero_iff x y p). simpl. tauto.
Qed.

(** C5, amended.  In exact arithmetic (rational component returns and
    weights, the real square root), with no weight negative:
    [dispersion_calc] without an override is a real number that is not
    negative, and it is 0 exactly when every component return paired with a
    weight equals the weighted-average return or has weight 0. *)
Theorem dispersion_calc_nonneg_zero_iff (component_returns weights : list Q) :
  Forall (λ y, 0 <= y) weights →
  ∃ r : R,
    dispersion_calc component_returns weights None = Real r ∧
    (0 <= r)%R ∧
    (r = 0%R ↔
     Forall (λ xy, xy.1 == weighted_average_return component_returns weights ∨ xy.2 == 0)
       (zip component_returns weights)).
Proof.
  intros Hw. unfold dispersion_calc.
  set (p := weighted_average_return component_returns weights).
  pose proof (deviations_nonneg p component_returns weights Hw) as Hd.
  pose proof (sum_nonneg _ Hd) as Hs.
  eexists. split; [by apply pow_half_nonneg|]. split; [apply sqrt_pos|].
  rewrite sqrt_Q2R_zero_iff by done. unfold radicand.
  rewrite sum_zero_iff by done. apply deviations_zero_iff.
Qed.

Lemma dispersion_calc_nonneg_zero_iff_witness :
  ∃ r : R,
    dispersion_calc [1 # 20; -1 # 25] [3 # 5; 2 # 5] None = Real r ∧
    (0 <= r)%R ∧
    (r = 0%R ↔
     Forall (λ xy, xy.1 == weighted_average_return [1 # 20; -1 # 25] [3 # 5; 2 # 5]
                   ∨ xy.2 == 0)
       (zip [1 # 20; -1 # 25] [3 # 5; 2 # 5])).
Proof.
  apply (dispersion_calc_nonneg_zero_iff [1 # 20; -1 # 25] [3 # 5; 2 # 5]).
  repeat constructor; by vm_compute.
Defined.

(** C5 as stated fails for a negative weight (a short position): returns
    [0, -1] with weights [1, -1] have portfolio return 1 and the sum under
    the root is [1 - 4 = -3], so the result is not a real number. *)
Lemma dispersion_calc_short_position_complex :
  ¬ ∃ r : R, dispersion_calc [0; -1] [1; -1] None = Real r ∧ (0 <= r)%R.
Proof.
  intros (r & H & _). unfold dispersion_calc in H.
  rewrite pow_half_neg in H; [done|]. by vm_compute.
Qed.

(** With a negative weight the dispersion can also be 0 although the returns
    differ from the portfolio return under weights that are not 0. *)
Lemma dispersion_calc_short_position_zero :
  dispersion_calc [3; 1] [1; -1] None = Real 0 ∧
  ¬ Forall (λ xy, xy.1 == weighted_average_return [3; 1] [1; -1] ∨ xy.2 == 0)
      (zip [3; 1] [1; -1]).
Proof.
  split.
  - unfold dispersion_calc. rewrite pow_half_nonneg by (by vm_compute).
    f_equal. apply sqrt_Q2R_zero_iff; by vm_compute.
  - intros H. apply Forall_cons in H as [[H|H] _]; by vm_compute in H.
Qed.

(** ** Column labels *)

Lemma column_position_None (c : string) (cols : list string) :
  c ∉ cols → column_position c cols = None.
Proof.
  intros H. unfold column_position.
  destruct (list_find _ cols) as [[i c']|] eqn:E; [|done].
  apply list_find_Some in E as (Hi & -> & _).
  destruct H. by eapply list_elem_of_lookup_2.
Qed.

Lemma column_position_lookup (cols : list string) (i : nat) (c : string) :
  NoDup cols → cols !! i = Some c → column_position c cols = Some i.
Proof.
  intros Hnd Hi. unfold column_position.
  destruct (list_find _ cols) as [[j c']|] eqn:E.
  - apply list_find_Some in E as (Hj & -> & _). simpl. f_equal.
    by eapply NoDup_lookup.
  - apply list_find_None in E. rewrite Forall_forall in E.
    destruct (E c); [by eapply list_elem_of_lookup_2 | done].
Qed.

Lemma column_position_Some (cols : list string) (i : nat) (c : string) :
  column_position c cols = Some i → cols !! i = Some c.
Proof.
  unfold column_position. intros H.
  destruct (list_find _ cols) as [[j c']|] eqn:E; [|done].
  apply list_find_Some in E as (Hj & -> & _). by simplify_eq/=.
Qed.

Lemma column_position_snoc (cols : list string) (c : string) :
  c ∉ cols → column_position c (cols ++ [c]) = Some (length cols).
Proof.
  intros H. unfold column_position.
  destruct (list_find _ (cols ++ [c])) as [[j c']|] eqn:E.
  - apply list_find_Some in E as (Hj & -> & _). simpl. f_equal.
    apply lookup_app_Some in Hj as [Hj|[Hl Hj]].
    + destruct H. by eapply list_elem_of_lookup_2.
    + apply lookup_lt_Some in Hj as Hlt. simpl in Hlt. lia.
  - apply list_find_None in E. rewrite Forall_forall in E.
    destruct (E c); [set_solver | done].
Qed.

Lemma column_position_app_l (cols : list string) (c c' : string) (i : nat) :
  NoDup cols → cols !! i = Some c → column_position c (cols ++ [c']) = Some i.
Proof.
  intros Hnd Hi. unfold column_position.
  destruct (list_find _ (cols ++ [c'])) as [[j c'']|] eqn:E.
  - apply list_find_Some in E as (Hj & -> & Hfirst). simpl. f_equal.
    destruct (decide (j < length cols)%nat) as [Hlt|Hge].
    + rewrite lookup_app_l in Hj by done. by eapply NoDup_lookup.
    + apply lookup_lt_Some in Hi as Hi'.
      destruct (Hfirst i c); [|lia|done]. by rewrite lookup_app_l.
  - apply list_find_None in E. rewrite Forall_forall in E.
    destruct (E c); [|done]. apply elem_of_app. left.
    by eapply list_elem_of_lookup_2.
Qed.

Lemma column_position_cons_ne (cols : list string) (c c' : string) :
  c ≠ c' → column_position c (c' :: cols) = S <$> column_position c cols.
Proof.
  intros H. unfold column_position. simpl.
  rewrite decide_False by done.
  destruct (list_find _ cols) as [[j c'']|]; done.
Qed.

(** ** Slices *)

Lemma upto_last_snoc {A} (l : list A) (x : A) : upto_last (l ++ [x]) = l.
Proof.
  unfold upto_last. rewrite length_app. simpl.
  replace (length l + 1 - 1)%nat with (length l) by lia. apply take_app_length.
Qed.

Lemma last1_snoc {A} (l : list A) (x : A) : last1 (l ++ [x]) = [x].
Proof.
  unfold last1. rewrite length_app. simpl.
  replace (length l + 1 - 1)%nat with (length l) by lia. apply drop_app_length.
Qed.

Lemma zip_with_take_r {A B C} (g : A → B → C) (l : list A) (k : list B) :
  zip_with g l (take (length l) k) = zip_with g l k.
Proof.
  revert k. induction l as [|x l IH]; intros [|y k]; simpl; try done.
  by rewrite IH.
Qed.

(** ** From prices to returns *)

Lemma pad_from_length (prev : list pyfloat) (vals : list (list pyfloat)) :
  length (pad_from prev vals) = length vals.
Proof.
  revert prev. induction vals as [|row vals IH]; intros prev; simpl; [done|].
  by rewrite IH.
Qed.

Lemma fillna_pad_length (vals : list (list pyfloat)) :
  length (fillna_pad vals) = length vals.
Proof. destruct vals; simpl; [done|]. by rewrite pad_from_length. Qed.

Lemma filled_length fill (vals : list (list pyfloat)) :
  length (filled fill vals) = length vals.
Proof. destruct fill as [[]|]; simpl; [apply fillna_pad_length | done]. Qed.

Lemma pad_from_width (w : nat) (prev : list pyfloat) (vals : list (list pyfloat)) :
  length prev = w → Forall (λ row, length row = w) vals →
  Forall (λ row, length row = w) (pad_from prev vals).
Proof.
  intros Hp Hv. revert prev Hp.
  induction Hv as [|row vals Hr _ IH]; intros prev Hp; simpl; constructor.
  - unfold pad_row. rewrite length_zip_with. lia.
  - apply IH. unfold pad_row. rewrite length_zip_with. lia.
Qed.

Lemma filled_width fill (w : nat) (vals : list (list pyfloat)) :
  Forall (λ row, length row = w) vals →
  Forall (λ row, length row = w) (filled fill vals).
Proof.
  destruct fill as [[]|]; simpl; [|done].
  destruct 1 as [|row vals Hr Hv]; simpl; constructor; [done|].
  by apply pad_from_width.
Qed.

Lemma periods_length (vals : list (list pyfloat)) :
  length (periods vals) = (length vals - 1)%nat.
Proof. unfold periods. rewrite length_zip_with, length_drop. lia. Qed.

Lemma periods_lookup (vals : list (list pyfloat)) (i : nat) :
  periods vals !! i =
    (later ← vals !! S i; earlier ← vals !! i; Some (zip_with change later earlier)).
Proof.
  unfold periods. rewrite lookup_zip_with, lookup_drop. simpl.
  by destruct (vals !! S i).
Qed.

Lemma periods_width (w : nat) (vals : list (list pyfloat)) :
  Forall (λ row, length row = w) vals →
  Forall (λ row, length row = w) (periods vals).
Proof.
  intros H. apply Forall_lookup. intros i row Hi.
  rewrite periods_lookup in Hi.
  destruct (vals !! S i) as [later|] eqn:E1; [|done].
  destruct (vals !! i) as [earlier|] eqn:E2; [|done]. simplify_eq/=.
  rewrite Forall_lookup in H.
  rewrite length_zip_with, (H _ _ E1), (H _ _ E2). lia.
Qed.

Lemma pct_change_shifted {I} fill (df : DataFrame I pyfloat) :
  iloc_upto_last (shift (-1) (pct_change fill df)) =
  mkDataFrame (columns df) (upto_last (index df)) (periods (filled fill (values df))).
Proof.
  unfold iloc_upto_last, shift, pct_change.
  cbn -[filled periods Nat.min upto_last].
  f_equal.
  generalize (replicate (length (columns df)) NaN). intros blank.
  generalize (filled fill (values df)). intros F.
  change (Pos.to_nat 1) with 1%nat.
  destruct F as [|f0 F]; [done|].
  replace (1 `min` length (f0 :: F))%nat with 1%nat by (simpl; lia).
  cbn [replicate app length zip_with].
  replace (S (length F) - 1)%nat with (length F) by lia.
  rewrite zip_with_take_r.
  set (X := zip_with (zip_with change) F (f0 :: F)).
  assert (HX : length X = length F)
    by (unfold X; rewrite length_zip_with; simpl; lia).
  replace (1 `min` S (length X))%nat with 1%nat by lia.
  cbn [drop replicate]. rewrite drop_0. unfold upto_last.
  rewrite length_app. cbn [length].
  replace (length X + 1 - 1)%nat with (length X) by lia.
  by rewrite take_app_length.
Qed.

Lemma reindex_row {A} (dflt e : A) (c : string) (cols : list string) (r : list A) :
  NoDup cols → c ∉ cols → length r = length cols →
  (λ c', default dflt (pos ← column_position c' (cols ++ [c]); (r ++ [e]) !! pos))
    <$> (c :: cols) = e :: r.
Proof.
  intros Hnd Hc Hlen. rewrite fmap_cons. f_equal.
  - rewrite column_position_snoc by done. simpl.
    rewrite <- Hlen. by rewrite list_lookup_middle.
  - apply list_eq. intros i. rewrite list_lookup_fmap.
    destruct (cols !! i) as [c'|] eqn:E; simpl.
    + rewrite (column_position_app_l _ _ _ i) by done. simpl.
      apply lookup_lt_Some in E as Hlt.
      rewrite lookup_app_l by lia.
      destruct (lookup_lt_is_Some_2 r i) as [x Hx]; [lia|]. by rewrite Hx.
    + apply lookup_ge_None in E. symmetry. apply lookup_ge_None. lia.
Qed.

(** The table of returns, row by row: row [i] is indexed by date [i], holds
    date [i+1] in [End], and then the changes of the filled prices from row
    [i] to row [i+1]. *)
Lemma price_df_to_returns_eq (price_df : DataFrame Date pyfloat) :
  wf_frame price_df → "End" ∉ columns price_df →
  price_df_to_returns price_df =
  mkDataFrame ("End" :: columns price_df) (upto_last (index price_df))
    (zip_with (λ r d, VStamp d :: (VFloat <$> r))
       (periods (fillna_pad (values price_df))) (drop 1 (index price_df))).
Proof.
  intros (Hnd & Hlen & Hw) Hend. unfold price_df_to_returns.
  cbv zeta. rewrite pct_change_shifted.
  unfold setitem, as_object. cbn [columns index values].
  rewrite column_position_None by done.
  unfold reindex_columns. cbn [columns index values].
  rewrite last1_snoc, upto_last_snoc. cbn [app]. f_equal.
  apply list_eq. intros i.
  rewrite list_lookup_fmap, !lookup_zip_with, !list_lookup_fmap.
  unfold from1, pct_change_default. cbn [index pct_change filled].
  pose proof (periods_width _ _ (filled_width (Some pad) _ _ Hw)) as Hpw.
  cbn [filled] in Hpw.
  destruct (periods (fillna_pad (values price_df)) !! i) as [r|] eqn:Er; [|done].
  cbn [fmap option_fmap option_map mbind option_bind].
  destruct (drop 1 (index price_df) !! i) as [d|] eqn:Ed; [|done].
  cbn [fmap option_fmap option_map mbind option_bind]. f_equal.
  apply (reindex_row (VFloat NaN) (VStamp d) "End" (columns price_df) (VFloat <$> r));
    [done..|].
  rewrite length_fmap. rewrite Forall_lookup in Hpw. by eapply Hpw.
Qed.

(** ** The return cells of an asset *)

Lemma column_position_is_Some (c : string) (cols : list string) :
  c ∈ cols → ∃ pos, column_position c cols = Some pos.
Proof.
  intros H. destruct (column_position c cols) as [pos|] eqn:E; [by exists pos|].
  unfold column_position in E.
  destruct (list_find _ cols) as [[j c']|] eqn:E'; [done|].
  apply list_find_None in E'. rewrite Forall_forall in E'. by destruct (E' c).
Qed.

Lemma rotation_elem_of {A} (x : A) (l : list A) :
  x ∈ last1 l ++ upto_last l ↔ x ∈ l.
Proof.
  unfold last1, upto_last. rewrite elem_of_app.
  rewrite <- (take_drop (length l - 1) l) at 5. rewrite elem_of_app. tauto.
Qed.

Lemma cell_reindex_columns {I} (new_columns : list string)
    (df : DataFrame I value) (i : nat) (c : string) :
  c ∈ new_columns →
  cell (reindex_columns new_columns df) i c =
    (row ← values df !! i;
     Some (default (VFloat NaN) (pos ← column_position c (columns df); row !! pos))).
Proof.
  intros Hc. destruct (column_position_is_Some _ _ Hc) as [pos' Hpos'].
  unfold cell, reindex_columns. cbn [columns values].
  rewrite list_lookup_fmap, Hpos'.
  destruct (values df !! i) as [row|]; [|done].
  cbn [fmap option_fmap option_map mbind option_bind].
  by rewrite list_lookup_fmap, (column_position_Some _ _ _ Hpos').
Qed.

(** Assigning a column leaves the cells of the other columns in place. *)
Lemma setitem_asset {I A} (c' : string) (col : list A) (df : DataFrame I A)
    (k : nat) (c : string) :
  wf_frame df → columns df !! k = Some c → c ≠ c' →
  column_position c (columns (setitem c' col df)) = Some k ∧
  ∀ (i : nat) (row : list A),
    values (setitem c' col df) !! i = Some row →
    ∃ row0, values df !! i = Some row0 ∧ row !! k = row0 !! k.
Proof.
  intros (Hnd & _ & Hw) Hk Hne. unfold setitem.
  rewrite Forall_lookup in Hw.
  destruct (column_position c' (columns df)) as [j|] eqn:Hj; cbn [columns values].
  - split; [by apply column_position_lookup|].
    intros i row Hrow. apply lookup_zip_with_Some in Hrow as (row0 & x & -> & H0 & _).
    exists row0. split; [done|]. apply list_lookup_insert_ne.
    intros ->. apply column_position_Some in Hj. congruence.
  - split; [by apply column_position_app_l|].
    intros i row Hrow. apply lookup_zip_with_Some in Hrow as (row0 & x & -> & H0 & _).
    exists row0. split; [done|]. apply lookup_app_l.
    rewrite (Hw _ _ H0). by eapply lookup_lt_Some.
Qed.

Lemma setitem_values_length {I A} (c' : string) (col : list A) (df : DataFrame I A) :
  length col = length (values df) →
  length (values (setitem c' col df)) = length (values df).
Proof.
  intros H. unfold setitem.
  destruct (column_position c' (columns df)); cbn [values];
    rewrite length_zip_with; lia.
Qed.

Lemma setitem_columns_elem_of {I A} (c' : string) (col : list A) (df : DataFrame I A)
    (c : string) :
  c ∈ columns df → c ∈ columns (setitem c' col df).
Proof.
  intros H. unfold setitem.
  destruct (column_position c' (columns df)); cbn [columns]; [done|].
  apply elem_of_app. by left.
Qed.

(** The return of asset column [c] (at position [k] of the price table)
    over period [i] is the change of its padded price. *)
Lemma price_df_to_returns_cell (price_df : DataFrame Date pyfloat)
    (i k : nat) (c : string) :
  wf_frame price_df → columns price_df !! k = Some c → c ≠ "End" →
  cell (price_df_to_returns price_df) i c =
    VFloat <$> (periods (fillna_pad (values price_df)) !! i ≫= (.!! k)).
Proof.
  intros Hwf Hk Hne. pose proof Hwf as (Hnd & Hlen & Hw).
  unfold price_df_to_returns. cbv zeta. rewrite pct_change_shifted.
  unfold from1, pct_change_default. cbn [index pct_change filled].
  set (P := periods (fillna_pad (values price_df))).
  set (df1 := as_object (mkDataFrame (columns price_df) (upto_last (index price_df)) P)).
  set (E := VStamp <$> drop 1 (index price_df)).
  assert (HPw : Forall (λ row, length row = length (columns price_df)) P).
  { apply periods_width. by apply (filled_width (Some pad)). }
  assert (HPl : length P = (length (values price_df) - 1)%nat).
  { unfold P. by rewrite periods_length, fillna_pad_length. }
  assert (Hwf1 : wf_frame df1).
  { split; [done|]. unfold df1, as_object. cbn [columns index values]. split.
    - unfold upto_last. rewrite !length_fmap, length_take. lia.
    - apply Forall_fmap. eapply Forall_impl; [exact HPw|].
      intros row Hrow. simpl. by rewrite length_fmap. }
  destruct (setitem_asset "End" E df1 k c Hwf1 Hk Hne) as [Hpos Hrows].
  rewrite cell_reindex_columns
    by (apply rotation_elem_of, setitem_columns_elem_of; by eapply list_elem_of_lookup_2).
  rewrite Hpos. cbn [mbind option_bind].
  destruct (values (setitem "End" E df1) !! i) as [row|] eqn:Hrow.
  - cbn [mbind option_bind].
    destruct (Hrows _ _ Hrow) as (row0 & Hrow0 & ->).
    unfold df1, as_object in Hrow0. cbn [values] in Hrow0.
    rewrite list_lookup_fmap in Hrow0.
    destruct (P !! i) as [r|] eqn:Hr; [|done]. simplify_eq/=.
    rewrite list_lookup_fmap.
    rewrite Forall_lookup in HPw. specialize (HPw _ _ Hr).
    destruct (lookup_lt_is_Some_2 r k) as [a Ha].
    { rewrite HPw. by eapply lookup_lt_Some. }
    by rewrite Ha.
  - apply lookup_ge_None in Hrow.
    rewrite setitem_values_length in Hrow.
    + unfold df1, as_object in Hrow. cbn [values] in Hrow.
      rewrite length_fmap in Hrow.
      by rewrite (lookup_ge_None_2 P i).
    + unfold E, df1, as_object. cbn [values].
      rewrite !length_fmap, length_drop. lia.
Qed.

Lemma column_total {I A} (df : DataFrame I A) (c : string) (l : list A) :
  length l = length (values df) →
  (∀ (i : nat) (x : A), l !! i = Some x → cell df i c = Some x) →
  column df c = l.
Proof.
  unfold column, cell. destruct df as [cols idx vals]. cbn [columns values].
  revert l. induction vals as [|row vals IH]; intros [|x l] Hlen Hl; simplify_eq/=; [done|].
  pose proof (Hl 0%nat x eq_refl) as H0. simpl in H0. rewrite H0.
  f_equal. apply IH; [done|].
  intros i y Hy. by apply (Hl (S i)).
Qed.

Lemma price_df_to_returns_length (price_df : DataFrame Date pyfloat) :
  wf_frame price_df →
  length (values (price_df_to_returns price_df)) = (length (values price_df) - 1)%nat.
Proof.
  intros (_ & Hlen & _). unfold price_df_to_returns. cbv zeta.
  rewrite pct_change_shifted. unfold reindex_columns. cbn [values].
  rewrite length_fmap, setitem_values_length; unfold as_object; cbn [values index].
  - by rewrite length_fmap, periods_length, filled_length.
  - unfold from1, pct_change. cbn [index].
    rewrite !length_fmap, length_drop, periods_length, filled_length. lia.
Qed.

Lemma omap_length_total {A B} (f : A → option B) (l : list A) :
  Forall (λ x, is_Some (f x)) l → length (omap f l) = length l.
Proof.
  induction 1 as [|x l [y Hy] _ IH]; [done|]. simpl. rewrite Hy. simpl. by f_equal.
Qed.

Lemma omap_lookup_total {A B} (f : A → option B) (l : list A) (i : nat) :
  Forall (λ x, is_Some (f x)) l → omap f l !! i = (l !! i ≫= f).
Proof.
  intros H. revert i. induction H as [|x l [y Hy] _ IH]; intros i; [done|].
  simpl. rewrite Hy. destruct i as [|i]; simpl; [done|apply IH].
Qed.

Lemma price_df_to_returns_column (price_df : DataFrame Date pyfloat)
    (k : nat) (c : string) :
  wf_frame price_df → columns price_df !! k = Some c → c ≠ "End" →
  column (price_df_to_returns price_df) c =
    VFloat <$> omap (.!! k) (periods (fillna_pad (values price_df))).
Proof.
  intros Hwf Hk Hne. pose proof Hwf as (Hnd & Hlen & Hw).
  assert (Htot : Forall (λ row : list pyfloat, is_Some (row !! k))
                   (periods (fillna_pad (values price_df)))).
  { eapply Forall_impl;
      [apply (periods_width (length (columns price_df))); by apply (filled_width (Some pad))|].
    simpl. intros r Hr. apply lookup_lt_is_Some_2. rewrite Hr.
    by eapply lookup_lt_Some. }
  apply column_total.
  - rewrite price_df_to_returns_length, length_fmap, omap_length_total by done.
    by rewrite periods_length, fillna_pad_length.
  - intros i x Hx. rewrite (price_df_to_returns_cell _ _ k) by done.
    by rewrite list_lookup_fmap, omap_lookup_total in Hx.
Qed.

Lemma upto_last_short {A} (l : list A) : (length l < 2)%nat → upto_last l = [].
Proof.
  intros H. unfold upto_last. destruct l as [|x [|y l]]; simpl in *; [done..|lia].
Qed.

Lemma periods_short (vals : list (list pyfloat)) :
  (length vals < 2)%nat → periods vals = [].
Proof.
  intros H. apply length_zero_iff_nil. rewrite periods_length. lia.
Qed.

(** C9.  For a price table with fewer than 2 rows [price_df_to_returns]
    returns a table with no rows. *)
Theorem price_df_to_returns_short (price_df : DataFrame Date pyfloat) :
  wf_frame price_df → (length (values price_df) < 2)%nat →
  index (price_df_to_returns price_df) = [] ∧
  values (price_df_to_returns price_df) = [].
Proof.
  intros (_ & Hlen & _) Hshort. unfold price_df_to_returns. cbv zeta.
  rewrite pct_change_shifted.
  rewrite periods_short by (by rewrite filled_length).
  rewrite upto_last_short by lia.
  unfold setitem, as_object. cbn [columns index values fmap list_fmap].
  by destruct (column_position "End" (columns price_df)).
Qed.

Lemma price_df_to_returns_short_witness :
  index (price_df_to_returns (mkDataFrame ["A"; "B"] [7%Z] [[Fin 100; Fin 50]])) = [] ∧
  values (price_df_to_returns (mkDataFrame ["A"; "B"] [7%Z] [[Fin 100; Fin 50]])) = [].
Proof.
  apply (price_df_to_returns_short (mkDataFrame ["A"; "B"] [7%Z] [[Fin 100; Fin 50]])).
  - frame_wf.
  - simpl. lia.
Defined.

Lemma column_position_head (c : string) (cols : list string) :
  column_position c (c :: cols) = Some 0%nat.
Proof. unfold column_position. simpl. by rewrite decide_True. Qed.

(** C4, amended.  For a price table with at least 2 rows and no column
    labelled [End], the table of returns has one row fewer, row [i] is
    indexed by the source's date at position [i] and holds the source's date
    at position [i+1] in [End], and the columns are [End] followed by the
    columns of the source in their order. *)
Theorem price_df_to_returns_shape (price_df : DataFrame Date pyfloat) :
  wf_frame price_df → "End" ∉ columns price_df →
  (2 ≤ length (values price_df))%nat →
  let returns := price_df_to_returns price_df in
  S (length (values returns)) = length (values price_df) ∧
  length (index returns) = length (values returns) ∧
  columns returns = "End" :: columns price_df ∧
  ∀ (i : nat) (d d' : Date),
    index price_df !! i = Some d → index price_df !! S i = Some d' →
    index returns !! i = Some d ∧ cell returns i "End" = Some (VStamp d').
Proof.
  intros Hwf Hend Hrows returns. subst returns.
  rewrite price_df_to_returns_eq by done.
  destruct Hwf as (Hnd & Hlen & Hw). cbn [columns index values].
  assert (Hl : length (zip_with (λ r d, VStamp d :: (VFloat <$> r))
      (periods (fillna_pad (values price_df))) (drop 1 (index price_df)))
    = (length (values price_df) - 1)%nat).
  { rewrite length_zip_with, periods_length, fillna_pad_length, length_drop. lia. }
  split; [lia|]. split; [unfold upto_last; rewrite length_take; lia|].
  split; [done|]. intros i d d' Hi Hi'. split.
  - unfold upto_last. rewrite lookup_take_lt; [done|].
    apply lookup_lt_Some in Hi'. lia.
  - unfold cell. cbn [columns values].
    rewrite lookup_zip_with, lookup_drop. cbn [Nat.add]. rewrite Hi'.
    destruct (lookup_lt_is_Some_2 (periods (fillna_pad (values price_df))) i) as [r Hr].
    { rewrite periods_length, fillna_pad_length.
      apply lookup_lt_Some in Hi'. lia. }
    rewrite Hr. cbn [mbind option_bind]. by rewrite column_position_head.
Qed.

Lemma price_df_to_returns_shape_witness :
  let returns := price_df_to_returns example_prices in
  S (length (values returns)) = length (values example_prices) ∧
  length (index returns) = length (values returns) ∧
  columns returns = "End" :: columns example_prices ∧
  ∀ (i : nat) (d d' : Date),
    index example_prices !! i = Some d → index example_prices !! S i = Some d' →
    index returns !! i = Some d ∧ cell returns i "End" = Some (VStamp d').
Proof.
  apply (price_df_to_returns_shape example_prices).
  - frame_wf.
  - by apply (bool_decide_unpack _).
  - simpl. lia.
Defined.

(** C4 as stated fails for a price table that has a column labelled [End]:
    the assignment of the end dates overwrites that column, no column is
    added, and the last column is moved to the front. *)
Lemma price_df_to_returns_End_asset :
  let price_df :=
    mkDataFrame ["End"; "A"] [0; 1]%Z [[Fin 100; Fin 50]; [Fin 110; Fin 55]] in
  PriceTable price_df ∧
  columns (price_df_to_returns price_df) = ["A"; "End"].
Proof.
  cbv zeta. split; [|done].
  split; [frame_wf|split].
  - simpl. repeat constructor; lia.
  - simpl. repeat constructor; by vm_compute.
Qed.

(** ** Missing prices *)

Lemma pad_row_lookup (prev cur : list pyfloat) (pos : nat) :
  pad_row prev cur !! pos =
    (p ← prev !! pos; c ← cur !! pos; Some (if isna c then p else c)).
Proof.
  unfold pad_row. rewrite lookup_zip_with. by destruct (prev !! pos).
Qed.

Lemma pad_from_leading (prev : list pyfloat) (vals : list (list pyfloat))
    (i pos : nat) (row : list pyfloat) :
  prev !! pos = Some NaN →
  (∀ j r, (j ≤ i)%nat → vals !! j = Some r → r !! pos = Some NaN) →
  pad_from prev vals !! i = Some row → row !! pos = Some NaN.
Proof.
  revert prev i. induction vals as [|v vals IH]; intros prev i Hp Hv Hi; [done|].
  assert (Hv0 : pad_row prev v !! pos = Some NaN).
  { rewrite pad_row_lookup, Hp, (Hv 0%nat v) by (done || lia). done. }
  destruct i as [|i]; simpl in Hi.
  - by simplify_eq.
  - eapply IH; [exact Hv0| |exact Hi].
    intros j r Hj Hr. apply (Hv (S j)); [lia|done].
Qed.

Lemma fillna_pad_leading (vals : list (list pyfloat)) (i pos : nat)
    (row : list pyfloat) :
  (∀ j r, (j ≤ i)%nat → vals !! j = Some r → r !! pos = Some NaN) →
  fillna_pad vals !! i = Some row → row !! pos = Some NaN.
Proof.
  destruct vals as [|v vals]; [done|]. intros Hv Hi.
  assert (Hv0 : v !! pos = Some NaN) by (apply (Hv 0%nat); [lia|done]).
  destruct i as [|i]; simpl in Hi.
  - by simplify_eq.
  - eapply pad_from_leading; [exact Hv0| |exact Hi].
    intros j r Hj Hr. apply (Hv (S j)); [lia|done].
Qed.

Lemma change_NaN_r (a : pyfloat) : change a NaN = NaN.
Proof. by destruct a. Qed.

(** ** Padded prices *)

Lemma pad_from_lookup_0 (prev : list pyfloat) (vals : list (list pyfloat)) :
  pad_from prev vals !! 0%nat = pad_row prev <$> vals !! 0%nat.
Proof. by destruct vals. Qed.

Lemma pad_from_lookup_S (prev : list pyfloat) (vals : list (list pyfloat)) (i : nat) :
  pad_from prev vals !! S i =
    (above ← pad_from prev vals !! i; cur ← vals !! S i; Some (pad_row above cur)).
Proof.
  revert prev i. induction vals as [|v vals IH]; intros prev i; [done|].
  destruct i as [|i]; simpl.
  - by rewrite pad_from_lookup_0.
  - by rewrite IH.
Qed.

(** Each padded row is the row of the table padded with the padded row
    above it. *)
Lemma fillna_pad_lookup_S (vals : list (list pyfloat)) (i : nat) :
  fillna_pad vals !! S i =
    (above ← fillna_pad vals !! i; cur ← vals !! S i; Some (pad_row above cur)).
Proof.
  destruct vals as [|v vals]; [done|]. destruct i as [|i]; simpl.
  - by rewrite pad_from_lookup_0.
  - by rewrite pad_from_lookup_S.
Qed.

Lemma fillna_pad_lookup_0 (vals : list (list pyfloat)) :
  fillna_pad vals !! 0%nat = vals !! 0%nat.
Proof. by destruct vals. Qed.

(** A price that is present is the padded price. *)
Lemma fillna_pad_present (w : nat) (vals : list (list pyfloat)) (i k : nat)
    (row : list pyfloat) (a : pyfloat) :
  Forall (λ row, length row = w) vals →
  vals !! i = Some row → row !! k = Some a → isna a = false →
  ∃ row', fillna_pad vals !! i = Some row' ∧ row' !! k = Some a.
Proof.
  intros Hw Hrow Hk Ha. destruct i as [|i].
  - exists row. by rewrite fillna_pad_lookup_0.
  - rewrite fillna_pad_lookup_S, Hrow.
    destruct (lookup_lt_is_Some_2 (fillna_pad vals) i) as [above Habove].
    { rewrite fillna_pad_length. apply lookup_lt_Some in Hrow. lia. }
    rewrite Habove. eexists. split; [done|].
    pose proof (filled_width (Some pad) _ _ Hw) as Hfw. cbn [filled] in Hfw.
    rewrite Forall_lookup in Hw, Hfw.
    destruct (lookup_lt_is_Some_2 above k) as [p Hp].
    { rewrite (Hfw _ _ Habove), <- (Hw _ _ Hrow). by eapply lookup_lt_Some. }
    rewrite pad_row_lookup, Hp, Hk. simpl. by rewrite Ha.
Qed.

(** A missing price is padded with the padded price above it. *)
Lemma fillna_pad_gap (vals : list (list pyfloat)) (i k : nat)
    (row above : list pyfloat) (p : pyfloat) :
  vals !! S i = Some row → row !! k = Some NaN →
  fillna_pad vals !! i = Some above → above !! k = Some p →
  ∃ row', fillna_pad vals !! S i = Some row' ∧ row' !! k = Some p.
Proof.
  intros Hrow Hk Habove Hp. rewrite fillna_pad_lookup_S, Hrow, Habove.
  eexists. split; [done|]. by rewrite pad_row_lookup, Hp, Hk.
Qed.

Lemma cell_inv {I A} (df : DataFrame I A) (i : nat) (c : string) (a : A) :
  cell df i c = Some a →
  ∃ row k, values df !! i = Some row ∧
           column_position c (columns df) = Some k ∧ row !! k = Some a.
Proof.
  unfold cell. intros H.
  destruct (values df !! i) as [row|]; [|done].
  destruct (column_position c (columns df)) as [k|]; [|done].
  by exists row, k.
Qed.

(** ** The last valid price *)

Lemma last_valid_0 (col : list pyfloat) :
  last_valid col 0 = default NaN (col !! 0%nat).
Proof.
  unfold last_valid. destruct col as [|a col]; [done|].
  cbn [take lookup list_lookup]. destruct a as [x|s0|]; try done.
Qed.

Lemma last_valid_S (col : list pyfloat) (i : nat) (a : pyfloat) :
  col !! S i = Some a →
  last_valid col (S i) = if isna a then last_valid col i else a.
Proof.
  intros Ha. unfold last_valid.
  rewrite (take_S_r _ _ _ Ha), filter_app.
  destruct (isna a) eqn:E.
  - rewrite filter_cons_False by (by rewrite E). by rewrite filter_nil, app_nil_r.
  - rewrite filter_cons_True by done. by rewrite filter_nil, last_snoc.
Qed.

Lemma last_valid_leading (col : list pyfloat) (i : nat) :
  (∀ j, (j ≤ i)%nat → col !! j = Some NaN) → last_valid col i = NaN.
Proof.
  induction i as [|i IH]; intros H.
  - by rewrite last_valid_0, (H 0%nat).
  - rewrite (last_valid_S _ _ NaN) by (by apply H). simpl. apply IH.
    intros j Hj. apply H. lia.
Qed.

Lemma last_valid_price_cell (col : list pyfloat) (i : nat) :
  Forall price_cell col → price_cell (last_valid col i).
Proof.
  intros Hcol. unfold last_valid.
  destruct (last _) as [a|] eqn:E; [|done]. simpl.
  apply last_Some_elem_of, list_elem_of_filter in E as [_ E].
  apply elem_of_take in E as (j & E & _).
  rewrite Forall_lookup in Hcol. by eapply Hcol.
Qed.

(** The padded price is the last valid price. *)
Lemma fillna_pad_last_valid (w : nat) (vals : list (list pyfloat)) (i k : nat) :
  Forall (λ row, length row = w) vals → (k < w)%nat → (i < length vals)%nat →
  (fillna_pad vals !! i ≫= (.!! k)) = Some (last_valid (omap (.!! k) vals) i).
Proof.
  intros Hw Hk.
  assert (Htot : Forall (λ row : list pyfloat, is_Some (row !! k)) vals).
  { eapply Forall_impl; [exact Hw|]. simpl. intros row Hrow.
    apply lookup_lt_is_Some_2. lia. }
  induction i as [|i IH]; intros Hi.
  - rewrite fillna_pad_lookup_0, last_valid_0, omap_lookup_total by done.
    destruct (lookup_lt_is_Some_2 vals 0%nat Hi) as [row Hrow]. rewrite Hrow.
    rewrite Forall_lookup in Htot. destruct (Htot _ _ Hrow) as [a Ha].
    simpl. by rewrite Ha.
  - destruct (lookup_lt_is_Some_2 vals (S i) Hi) as [row Hrow].
    pose proof Htot as Htot'. rewrite Forall_lookup in Htot'.
    destruct (Htot' _ _ Hrow) as [a Ha].
    rewrite (last_valid_S _ _ a) by (by rewrite omap_lookup_total, Hrow by done).
    rewrite fillna_pad_lookup_S, Hrow.
    specialize (IH ltac:(lia)).
    destruct (fillna_pad vals !! i) as [above|]; [|done]. simpl in IH |- *.
    rewrite pad_row_lookup, IH, Ha. simpl. by destruct (isna a).
Qed.

Lemma column_at {I A} (df : DataFrame I A) (c : string) (k : nat) :
  NoDup (columns df) → columns df !! k = Some c →
  column df c = omap (.!! k) (values df).
Proof.
  intros Hnd Hk. unfold column. by rewrite (column_position_lookup _ k).
Qed.

(** Every return of an asset is the change between the last valid prices
    of the two dates of its period. *)
Lemma price_df_to_returns_cell_last_valid (price_df : DataFrame Date pyfloat)
    (i : nat) (c : string) :
  wf_frame price_df → c ∈ columns price_df → c ≠ "End" →
  (S i < length (values price_df))%nat →
  cell (price_df_to_returns price_df) i c =
    Some (VFloat (change (last_valid (column price_df c) (S i))
                         (last_valid (column price_df c) i))).
Proof.
  intros Hwf Hin Hne Hi. pose proof Hwf as (Hnd & Hlen & Hw).
  apply list_elem_of_lookup in Hin as [k Hk].
  rewrite (price_df_to_returns_cell _ _ k), (column_at _ _ k) by done.
  assert (Hkw : (k < length (columns price_df))%nat) by (by eapply lookup_lt_Some).
  pose proof (fillna_pad_last_valid _ _ (S i) k Hw Hkw Hi) as H1.
  pose proof (fillna_pad_last_valid _ _ i k Hw Hkw ltac:(lia)) as H0.
  rewrite periods_lookup.
  destruct (fillna_pad (values price_df) !! S i) as [later|]; [|done].
  destruct (fillna_pad (values price_df) !! i) as [earlier|]; [|done].
  simpl in H0, H1 |- *. by rewrite lookup_zip_with, H1, H0.
Qed.

Lemma column_price_cells (price_df : DataFrame Date pyfloat) (c : string) :
  PriceTable price_df → Forall price_cell (column price_df c).
Proof.
  intros (_ & _ & Hcells). unfold column. apply Forall_lookup. intros i a Ha.
  apply list_elem_of_lookup_2, list_elem_of_omap in Ha as (row & Hrow & Ha).
  rewrite Forall_forall in Hcells. specialize (Hcells _ Hrow).
  destruct (column_position c (columns price_df)) as [k|]; [|done]. simpl in Ha.
  rewrite Forall_lookup in Hcells. by apply (Hcells _ _ Ha).
Qed.

Lemma column_length (price_df : DataFrame Date pyfloat) (c : string) :
  wf_frame price_df → c ∈ columns price_df →
  length (column price_df c) = length (values price_df).
Proof.
  intros (Hnd & _ & Hw) Hin. apply list_elem_of_lookup in Hin as [k Hk].
  rewrite (column_at _ _ k) by done. apply omap_length_total.
  eapply Forall_impl; [exact Hw|]. simpl. intros row Hrow.
  apply lookup_lt_is_Some_2. rewrite Hrow. by eapply lookup_lt_Some.
Qed.

Lemma change_Fin (p q : Q) : 0 < p → change (Fin q) (Fin p) = Fin (q / p - 1).
Proof.
  intros Hp. unfold change. simpl.
  destruct (Qeq_bool p 0) eqn:E; [|done].
  apply Qeq_bool_iff in E. lra.
Qed.

Lemma change_same (p : Q) : ¬ p == 0 → ∃ x, change (Fin p) (Fin p) = Fin x ∧ x == 0.
Proof.
  intros Hp. unfold change. simpl.
  destruct (Qeq_bool p 0) eqn:E; [by apply Qeq_bool_iff in E|].
  eexists. split; [done|]. by field.
Qed.

(** A valid price followed by missing prices up to position [n] is the last
    valid price at [n]. *)
Lemma last_valid_gap (col : list pyfloat) (j n : nat) (a : pyfloat) :
  col !! j = Some a → isna a = false → (j ≤ n)%nat →
  (∀ m : nat, (j < m ≤ n)%nat → col !! m = Some NaN) →
  last_valid col n = a.
Proof.
  intros Ha Hna Hjn. induction Hjn as [|n Hjn IH]; intros Hgap.
  - destruct j as [|j].
    + by rewrite last_valid_0, Ha.
    + by rewrite (last_valid_S _ _ a), Hna.
  - rewrite (last_valid_S _ _ NaN) by (apply Hgap; lia). simpl.
    apply IH. intros m Hm. apply Hgap. lia.
Qed.

(** No valid price on or before position [i]: every price up to [i] is
    missing. *)
Lemma last_valid_missing (col : list pyfloat) (i : nat) :
  (i < length col)%nat → last_valid col i = NaN →
  ∀ j : nat, (j ≤ i)%nat → col !! j = Some NaN.
Proof.
  induction i as [|i IH]; intros Hi Hlast j Hj.
  - assert (j = 0%nat) as -> by lia. rewrite last_valid_0 in Hlast.
    destruct (lookup_lt_is_Some_2 col 0%nat Hi) as [a Ha].
    rewrite Ha in Hlast |- *. simpl in Hlast. by subst.
  - destruct (lookup_lt_is_Some_2 col (S i) Hi) as [a Ha].
    rewrite (last_valid_S _ _ a) in Hlast by done.
    destruct (isna a) eqn:E; [|by subst].
    assert (a = NaN) as -> by (by destruct a).
    destruct (decide (j = S i)) as [->|Hne]; [done|].
    apply IH; [lia|done|lia].
Qed.

(** C6, amended.  For a PriceTable and an asset column (not labelled
    [End]), the return of period [i] is [p' / p - 1], where [p] is the
    asset's last valid price on or before date [i] and [p'] its last valid
    price on or before date [i+1]: missing prices are forward-filled before
    the division.  So the return is missing exactly when every price of the
    asset up to and including date [i] is missing; after a valid price,
    however many dates back, a missing price on date [i+1] gives the return
    0, and a valid price on date [i+1] gives the change from the last valid
    price. *)
Theorem price_df_to_returns_last_valid (price_df : DataFrame Date pyfloat)
    (i : nat) (c : string) :
  PriceTable price_df → c ∈ columns price_df → c ≠ "End" →
  (S i < length (values price_df))%nat →
  let prices := column price_df c in
  let r := change (last_valid prices (S i)) (last_valid prices i) in
  cell (price_df_to_returns price_df) i c = Some (VFloat r) ∧
  (r = NaN ↔ ∀ j : nat, (j ≤ i)%nat → cell price_df j c = Some NaN) ∧
  (∀ (j : nat) (p : Q), (j ≤ i)%nat → cell price_df j c = Some (Fin p) →
     (∀ m : nat, (j < m ≤ S i)%nat → cell price_df m c = Some NaN) →
     ∃ x : Q, r = Fin x ∧ x == 0) ∧
  (∀ (j : nat) (p q : Q), (j ≤ i)%nat → cell price_df j c = Some (Fin p) →
     (∀ m : nat, (j < m ≤ i)%nat → cell price_df m c = Some NaN) →
     cell price_df (S i) c = Some (Fin q) →
     r = Fin (q / p - 1)).
Proof.
  intros HPT Hin Hne Hi prices r. pose proof HPT as (Hwf & _ & _).
  pose proof Hwf as (Hnd & _ & Hw).
  pose proof (column_price_cells _ c HPT) as Hcells. fold prices in Hcells.
  pose proof (column_length _ c Hwf Hin) as Hlen. fold prices in Hlen.
  destruct (lookup_lt_is_Some_2 prices (S i)) as [a Ha]; [lia|].
  pose proof (last_valid_price_cell prices i Hcells) as Hearlier.
  assert (Hcell : ∀ j, cell price_df j c = prices !! j).
  { intros j. apply list_elem_of_lookup in Hin as [k Hk].
    unfold prices. rewrite (column_at _ _ k) by done.
    rewrite omap_lookup_total.
    - unfold cell. rewrite (column_position_lookup _ k) by done.
      by destruct (values price_df !! j).
    - eapply Forall_impl; [exact Hw|]. simpl. intros row Hrow.
      apply lookup_lt_is_Some_2. rewrite Hrow. by eapply lookup_lt_Some. }
  assert (Hpos : ∀ j p, prices !! j = Some (Fin p) → 0 < p).
  { intros j p Hj. rewrite Forall_lookup in Hcells. apply (Hcells _ _ Hj). }
  assert (Hlater : last_valid prices (S i) = if isna a then last_valid prices i else a)
    by (by apply last_valid_S).
  assert (Ha' : price_cell a).
  { rewrite Forall_lookup in Hcells. by eapply Hcells. }
  split; [by apply price_df_to_returns_cell_last_valid|]. split; [|split].
  - unfold r. rewrite Hlater. split.
    + intros Hr j Hj. rewrite Hcell. apply (last_valid_missing prices i); [lia| |done].
      destruct (last_valid prices i) as [p| |] eqn:E; [|done..].
      simpl in Hearlier.
      destruct a as [q| |]; simpl in Ha', Hr; [|done|];
        by rewrite change_Fin in Hr.
    + intros Hmiss. rewrite (last_valid_leading prices i).
      * apply change_NaN_r.
      * intros j Hj. rewrite <- Hcell. by apply Hmiss.
  - intros j p Hj Hp Hgap. rewrite Hcell in Hp. unfold r.
    rewrite (last_valid_gap prices j (S i) (Fin p)), (last_valid_gap prices j i (Fin p));
      [|done|done|lia|intros m Hm; rewrite <- Hcell; apply Hgap; lia
       |done|done|lia|intros m Hm; rewrite <- Hcell; apply Hgap; lia].
    apply change_same. specialize (Hpos _ _ Hp). lra.
  - intros j p q Hj Hp Hgap Hq. rewrite Hcell in Hp, Hq. unfold r.
    rewrite (last_valid_gap prices j i (Fin p));
      [|done|done|lia|intros m Hm; rewrite <- Hcell; apply Hgap; lia].
    rewrite (last_valid_S _ _ (Fin q)) by done. simpl.
    apply change_Fin. by eapply Hpos.
Qed.

Lemma price_df_to_returns_last_valid_witness :
  let prices := column late_listing "B" in
  let r := change (last_valid prices 2) (last_valid prices 1) in
  cell (price_df_to_returns late_listing) 1 "B" = Some (VFloat r) ∧
  (r = NaN ↔ ∀ j : nat, (j ≤ 1)%nat → cell late_listing j "B" = Some NaN) ∧
  (∀ (j : nat) (p : Q), (j ≤ 1)%nat → cell late_listing j "B" = Some (Fin p) →
     (∀ m : nat, (j < m ≤ 2)%nat → cell late_listing m "B" = Some NaN) →
     ∃ x : Q, r = Fin x ∧ x == 0) ∧
  (∀ (j : nat) (p q : Q), (j ≤ 1)%nat → cell late_listing j "B" = Some (Fin p) →
     (∀ m : nat, (j < m ≤ 1)%nat → cell late_listing m "B" = Some NaN) →
     cell late_listing 2 "B" = Some (Fin q) →
     r = Fin (q / p - 1)).
Proof.
  apply (price_df_to_returns_last_valid late_listing 1 "B").
  - split; [frame_wf|split]; simpl.
    + repeat constructor; lia.
    + repeat constructor; by vm_compute.
  - by apply (bool_decide_unpack _).
  - done.
  - simpl. lia.
Defined.

(** C6 as stated fails for a missing price that follows a valid one:
    [pct_change] pads the gap with the last valid price before it divides,
    so the period that ends at the gap has return 0 and the period that
    starts at it is measured from the last valid price. *)
Lemma price_df_to_returns_fills_gap :
  let price_df := mkDataFrame ["A"] [0; 1; 2]%Z [[Fin 100]; [NaN]; [Fin 110]] in
  PriceTable price_df ∧
  cell price_df 1 "A" = Some NaN ∧
  (∃ x, cell (price_df_to_returns price_df) 0 "A" = Some (VFloat (Fin x)) ∧ x == 0) ∧
  (∃ y, cell (price_df_to_returns price_df) 1 "A" = Some (VFloat (Fin y)) ∧ y == 1 # 10).
Proof.
  cbv zeta. split; [|split; [done|split]].
  - split; [|split].
    + frame_wf.
    + simpl. repeat constructor; lia.
    + simpl. repeat constructor; by vm_compute.
  - eexists. split; [by vm_compute|]. by vm_compute.
  - eexists. split; [by vm_compute|]. by vm_compute.
Qed.

(** A gap of two dates: both periods that end in the gap have return 0, and
    the period that ends after it is measured from the price before it. *)
Lemma price_df_to_returns_long_gap :
  let price_df :=
    mkDataFrame ["A"] [0; 1; 2; 3]%Z [[Fin 100]; [NaN]; [NaN]; [Fin 110]] in
  column (price_df_to_returns price_df) "A"
    ≡ [VFloat (Fin 0); VFloat (Fin 0); VFloat (Fin (1 # 10))].
Proof. cbv zeta. by repeat constructor. Qed.

(** With [fill_method=None] the periods next to a missing price are missing. *)
Lemma periods_unfilled_missing (vals : list (list pyfloat)) (i pos : nat)
    (r : list pyfloat) (a : pyfloat) :
  periods (filled None vals) !! i = Some r → r !! pos = Some a →
  ((∃ row, vals !! i = Some row ∧ row !! pos = Some NaN) ∨
   (∃ row, vals !! S i = Some row ∧ row !! pos = Some NaN)) →
  a = NaN.
Proof.
  cbn [filled]. rewrite periods_lookup. intros Hr Ha Hmiss.
  destruct (vals !! S i) as [later|] eqn:El; [|done].
  destruct (vals !! i) as [earlier|] eqn:Ee; [|done]. simplify_eq/=.
  rewrite lookup_zip_with in Ha.
  destruct (later !! pos) as [x|] eqn:Ex; [|done].
  destruct (earlier !! pos) as [y|] eqn:Ey; [|done]. simplify_eq/=.
  destruct Hmiss as [(row & Hrow & Hn)|(row & Hrow & Hn)].
  - assert (y = NaN) as -> by congruence. apply change_NaN_r.
  - by assert (x = NaN) as -> by congruence.
Qed.

(** ** Compounding *)

Lemma priced_rows (price_df : DataFrame Date pyfloat) :
  PriceTable price_df → complete price_df → Forall priced (values price_df).
Proof.
  intros (_ & _ & Hpos) Hc. unfold complete in Hc.
  rewrite Forall_lookup in Hpos, Hc. apply Forall_lookup. intros i row Hi.
  specialize (Hpos _ _ Hi). specialize (Hc _ _ Hi).
  rewrite Forall_lookup in Hpos, Hc. apply Forall_lookup. intros k a Hk.
  specialize (Hpos _ _ Hk). specialize (Hc _ _ Hk). simpl in *.
  destruct a; [eauto|done..].
Qed.

Lemma pad_row_priced (prev cur : list pyfloat) :
  length prev = length cur → priced cur → pad_row prev cur = cur.
Proof.
  intros Hlen Hc. apply list_eq. intros k. rewrite pad_row_lookup.
  destruct (cur !! k) as [c|] eqn:Ec.
  - destruct (lookup_lt_is_Some_2 prev k) as [p Hp].
    { rewrite Hlen. by eapply lookup_lt_Some. }
    rewrite Hp. simpl. unfold priced in Hc. rewrite Forall_lookup in Hc.
    by destruct (Hc _ _ Ec) as (x & -> & _).
  - by destruct (prev !! k).
Qed.

Lemma pad_from_priced (w : nat) (prev : list pyfloat) (vals : list (list pyfloat)) :
  length prev = w → Forall (λ row, length row = w) vals → Forall priced vals →
  pad_from prev vals = vals.
Proof.
  intros Hp Hw Hv. revert prev Hp.
  induction Hw as [|row vals Hr _ IH]; intros prev Hp; [done|].
  apply Forall_cons in Hv as [Hv1 Hv2]. simpl.
  rewrite pad_row_priced by (done || lia). f_equal. by apply IH.
Qed.

Lemma fillna_pad_priced (w : nat) (vals : list (list pyfloat)) :
  Forall (λ row, length row = w) vals → Forall priced vals →
  fillna_pad vals = vals.
Proof.
  intros Hw Hv. destruct vals as [|v vals]; [done|]. simpl.
  apply Forall_cons in Hw as [Hw1 Hw2]. apply Forall_cons in Hv as [Hv1 Hv2].
  f_equal. by eapply pad_from_priced.
Qed.

Lemma periods_cons (v v' : list pyfloat) (vals : list (list pyfloat)) :
  periods (v :: v' :: vals) = zip_with change v' v :: periods (v' :: vals).
Proof. done. Qed.

(** The product of [1 + r] over the periods of one column telescopes. *)
Lemma compound_telescopes (k : nat) (vals : list (list pyfloat))
    (v : list pyfloat) (a p : Q) :
  priced v → Forall priced vals →
  Forall (λ row, length row = length v) vals →
  v !! k = Some (Fin p) →
  ∃ q z : Q,
    (last (v :: vals) ≫= (.!! k)) = Some (Fin q) ∧
    foldl (λ acc r, fmul acc (fadd (Fin 1) r)) (Fin a)
      (omap (.!! k) (periods (v :: vals))) = Fin z ∧
    z == a * (q / p).
Proof.
  intros Hv Hvals Hw Hk. revert v a p Hv Hw Hk.
  induction Hvals as [|v' vals Hv' _ IH]; intros v a p Hv Hw Hk.
  - exists p, a. simpl. split; [done|]. split; [done|].
    unfold priced in Hv. rewrite Forall_lookup in Hv.
    destruct (Hv _ _ Hk) as (x & ? & Hx). simplify_eq. field. lra.
  - apply Forall_cons in Hw as [Hw1 Hw2].
    unfold priced in Hv, Hv'. rewrite Forall_lookup in Hv, Hv'.
    destruct (Hv _ _ Hk) as (x & ? & Hp). simplify_eq.
    destruct (lookup_lt_is_Some_2 v' k) as [b Hb].
    { rewrite Hw1. by eapply lookup_lt_Some. }
    destruct (Hv' _ _ Hb) as (p' & -> & Hp').
    destruct (IH v' (a * (1 + (p' / x - 1))) p') as (q & z & Hlast & Hfold & Hz).
    { unfold priced. by rewrite Forall_lookup. }
    { eapply Forall_impl; [exact Hw2|]. simpl. intros; congruence. }
    { done. }
    exists q, z. split; [by rewrite last_cons_cons|]. split.
    + rewrite periods_cons. cbn [omap list_omap].
      rewrite lookup_zip_with, Hb, Hk. cbn [mbind option_bind].
      rewrite change_Fin by done. cbn [foldl fmul fadd]. exact Hfold.
    + rewrite Hz. field. lra.
Qed.

(** The returns of one column of present prices: every period's return is
    a number, the change between the two prices of the period. *)
Lemma periods_priced_column (k : nat) (vals : list (list pyfloat))
    (v : list pyfloat) :
  priced v → Forall priced vals →
  Forall (λ row, length row = length v) vals → (k < length v)%nat →
  ∃ rs : list Q,
    omap (.!! k) (periods (v :: vals)) = Fin <$> rs ∧
    length rs = length vals ∧
    ∀ (i : nat) (r : Q), rs !! i = Some r →
      ∃ a b : Q,
        ((v :: vals) !! i ≫= (.!! k)) = Some (Fin a) ∧
        ((v :: vals) !! S i ≫= (.!! k)) = Some (Fin b) ∧ r == b / a - 1.
Proof.
  intros Hv Hvals. revert v Hv.
  induction Hvals as [|v' vals Hv' _ IH]; intros v Hv Hw Hk.
  - by exists [].
  - apply Forall_cons in Hw as [Hw1 Hw2].
    destruct (lookup_lt_is_Some_2 v k Hk) as [x Hx].
    destruct (lookup_lt_is_Some_2 v' k) as [y Hy]; [lia|].
    pose proof Hv as Hv0. pose proof Hv' as Hv0'.
    unfold priced in Hv0, Hv0'. rewrite Forall_lookup in Hv0, Hv0'.
    destruct (Hv0 _ _ Hx) as (a & -> & Ha). destruct (Hv0' _ _ Hy) as (b & -> & Hb).
    destruct (IH v' Hv') as (rs & Hrs & Hlen & Hcells); [|lia|].
    { eapply Forall_impl; [exact Hw2|]. simpl. intros; congruence. }
    exists (b / a - 1 :: rs). split; [|split].
    + rewrite periods_cons. cbn [omap list_omap].
      rewrite lookup_zip_with, Hy, Hx. cbn [mbind option_bind].
      rewrite change_Fin by done. by rewrite Hrs.
    + simpl. by rewrite Hlen.
    + intros [|i] r Hr.
      * simpl in Hr. simplify_eq. exists a, b. simpl. by rewrite Hx, Hy.
      * simpl in Hr. destruct (Hcells i r Hr) as (a' & b' & H1 & H2 & H3).
        by exists a', b'.
Qed.

(** ** Selecting rows by date *)

Lemma sorted_NoDup (idx : list Date) : StronglySorted Z.lt idx → NoDup idx.
Proof.
  induction 1 as [|d idx _ IH Hd]; constructor; [|done].
  intros Hin. rewrite Forall_forall in Hd. specialize (Hd _ Hin). lia.
Qed.

Lemma rows_at_lookup (price_df : DataFrame Date pyfloat) (i : nat) (d : Date)
    (v : list pyfloat) :
  NoDup (index price_df) → length (index price_df) = length (values price_df) →
  index price_df !! i = Some d → values price_df !! i = Some v →
  rows_at d price_df = [v].
Proof.
  unfold rows_at, iterrows. destruct price_df as [cols idx vals]. simpl.
  intros Hnd Hlen Hi Hv. revert i vals Hlen Hi Hv.
  induction Hnd as [|d0 idx Hd0 Hnd IH]; intros i vals Hlen Hi Hv; [done|].
  destruct vals as [|v0 vals]; [done|]. simpl in Hlen.
  destruct i as [|i]; simpl in Hi, Hv; simplify_eq.
  - simpl. rewrite filter_cons_True by done. simpl. f_equal.
    assert (Hnone : ∀ vs, filter (λ r : Date * list pyfloat, r.1 = d) (zip idx vs) = []).
    { clear -Hd0. induction idx as [|d' idx IHi]; intros [|v' vs]; simpl; try done.
      rewrite filter_cons_False by (simpl; intros ->; apply Hd0; left).
      apply IHi. intros ?. apply Hd0. by right. }
    by rewrite Hnone.
  - simpl. rewrite filter_cons_False.
    + eapply IH; [lia|done..].
    + simpl. intros ->. apply Hd0. by eapply list_elem_of_lookup_2.
Qed.

(** C8, amended.  In exact rational arithmetic: for a PriceTable with at
    least 2 rows and no missing price, [calculate_return] at the first and
    the last date returns one row; for every asset whose column is not
    labelled [End], the per-period returns in the table of
    [price_df_to_returns] are numbers, the return of period [i] being
    [price(i+1) / price(i) - 1], and the asset's entry in the row is the
    number [last price / first price - 1], which is the product of [1 + r]
    over the asset's per-period returns [r], minus 1. *)
Theorem calculate_return_compounds (price_df : DataFrame Date pyfloat)
    (start_date end_date : Date) :
  PriceTable price_df → complete price_df →
  (2 ≤ length (values price_df))%nat →
  index price_df !! 0%nat = Some start_date →
  last (index price_df) = Some end_date →
  ∃ total : list pyfloat,
    calculate_return start_date end_date price_df = [total] ∧
    length total = length (columns price_df) ∧
    ∀ (k : nat) (c : string), columns price_df !! k = Some c → c ≠ "End" →
      ∃ (returns : list Q) (p q t : Q),
        column (price_df_to_returns price_df) c = VFloat <$> (Fin <$> returns) ∧
        length returns = (length (values price_df) - 1)%nat ∧
        (∀ (i : nat) (r : Q), returns !! i = Some r →
           ∃ a b : Q, cell price_df i c = Some (Fin a) ∧
                      cell price_df (S i) c = Some (Fin b) ∧ r == b / a - 1) ∧
        cell price_df 0 c = Some (Fin p) ∧
        cell price_df (length (values price_df) - 1) c = Some (Fin q) ∧
        total !! k = Some (Fin t) ∧ t == q / p - 1 ∧
        Fin t ≡ compound (Fin <$> returns).
Proof.
  intros HPT Hcomplete Hrows Hfirst Hlast.
  pose proof (priced_rows _ HPT Hcomplete) as Hpriced.
  destruct HPT as (Hwf & Hsorted & _).
  pose proof Hwf as (Hnd & Hlen & Hw).
  apply sorted_NoDup in Hsorted.
  assert (Hcell : ∀ (i k : nat) (c : string), columns price_df !! k = Some c →
            cell price_df i c = (values price_df !! i ≫= (.!! k))).
  { intros i k c Hc. unfold cell. rewrite (column_position_lookup _ k) by done.
    by destruct (values price_df !! i). }
  destruct (values price_df) as [|v0 vals] eqn:Evals; [simpl in Hrows; lia|].
  assert (is_Some (last (v0 :: vals))) as [vn Hvn] by (by apply last_is_Some).
  assert (Hat0 : rows_at start_date price_df = [v0]).
  { apply (rows_at_lookup _ 0%nat); [done|by rewrite Evals|done|by rewrite Evals]. }
  assert (Hatn : rows_at end_date price_df = [vn]).
  { rewrite last_lookup in Hlast. rewrite last_lookup in Hvn.
    apply (rows_at_lookup _ (pred (length (index price_df))));
      [done|by rewrite Evals|done|]. by rewrite Evals, Hlen. }
  apply Forall_cons in Hw as [Hw0 Hw]. apply Forall_cons in Hpriced as [Hp0 Hp].
  assert (Hwn : length vn = length (columns price_df)).
  { apply last_Some_elem_of in Hvn. apply elem_of_cons in Hvn as [->|Hin]; [done|].
    rewrite Forall_forall in Hw. by apply Hw. }
  assert (Hw' : Forall (λ row : list pyfloat, length row = length v0) vals).
  { eapply Forall_impl; [exact Hw|]. simpl. intros; congruence. }
  exists (zip_with change vn v0). split.
  { unfold calculate_return. by rewrite Hat0, Hatn. }
  split; [rewrite length_zip_with; lia|].
  intros k c Hc Hcne.
  destruct (lookup_lt_is_Some_2 v0 k) as [a0 Ha0].
  { rewrite Hw0. by eapply lookup_lt_Some. }
  pose proof Hp0 as Hp0'. unfold priced in Hp0'. rewrite Forall_lookup in Hp0'.
  destruct (Hp0' _ _ Ha0) as (p & -> & Hppos).
  destruct (compound_telescopes k vals v0 1 p) as (q & z & Hq & Hfold & Hz);
    [done..|].
  destruct (periods_priced_column k vals v0) as (rs & Hrs & Hrslen & Hcells);
    [done..|by eapply lookup_lt_Some|].
  exists rs, p, q, (q / p - 1).
  assert (Hfill : fillna_pad (v0 :: vals) = v0 :: vals).
  { apply (fillna_pad_priced (length (columns price_df))); by constructor. }
  split; [|split; [|split; [|split; [|split; [|split; [|split]]]]]].
  - rewrite (price_df_to_returns_column _ k) by done. by rewrite Evals, Hfill, Hrs.
  - simpl. lia.
  - intros i r Hr. destruct (Hcells i r Hr) as (a & b & H1 & H2 & H3).
    exists a, b. by rewrite !(Hcell _ k).
  - by rewrite (Hcell _ k), <- Ha0.
  - rewrite (Hcell _ k) by done. rewrite last_lookup in Hvn, Hq. simpl in Hvn, Hq |- *.
    by rewrite Nat.sub_0_r.
  - rewrite Hvn in Hq. simpl in Hq.
    rewrite lookup_zip_with, Hq, Ha0. simpl. by rewrite change_Fin.
  - reflexivity.
  - unfold compound. rewrite <- Hrs, Hfold. simpl.
    change (q / p - 1 == z - 1). rewrite Hz. field. lra.
Qed.

Lemma calculate_return_compounds_witness :
  ∃ total : list pyfloat,
    calculate_return 0%Z 2%Z example_prices = [total] ∧
    length total = length (columns example_prices) ∧
    ∀ (k : nat) (c : string), columns example_prices !! k = Some c → c ≠ "End" →
      ∃ (returns : list Q) (p q t : Q),
        column (price_df_to_returns example_prices) c = VFloat <$> (Fin <$> returns) ∧
        length returns = (length (values example_prices) - 1)%nat ∧
        (∀ (i : nat) (r : Q), returns !! i = Some r →
           ∃ a b : Q, cell example_prices i c = Some (Fin a) ∧
                      cell example_prices (S i) c = Some (Fin b) ∧ r == b / a - 1) ∧
        cell example_prices 0 c = Some (Fin p) ∧
        cell example_prices (length (values example_prices) - 1) c = Some (Fin q) ∧
        total !! k = Some (Fin t) ∧ t == q / p - 1 ∧
        Fin t ≡ compound (Fin <$> returns).
Proof.
  apply (calculate_return_compounds example_prices 0%Z 2%Z).
  - split; [frame_wf|split]; simpl.
    + repeat constructor; lia.
    + repeat constructor; by vm_compute.
  - by repeat constructor.
  - simpl. lia.
  - done.
  - done.
Defined.

(** C8 as stated fails for an asset whose price column is labelled [End]:
    [calculate_return] gives its return, but in the table of
    [price_df_to_returns] the column [End] holds the end dates of the
    periods, so the asset has no per-period returns to compound. *)
Lemma calculate_return_End_asset :
  let price_df := mkDataFrame ["End"; "A"] [0; 1; 2]%Z
                    [[Fin 10; Fin 100]; [Fin 11; Fin 110]; [Fin 12; Fin 99]] in
  PriceTable price_df ∧ complete price_df ∧
  calculate_return 0%Z 2%Z price_df
    = [[Fin (12 / 10 - 1); Fin (99 / 100 - 1)]] ∧
  column (price_df_to_returns price_df) "End" = [VStamp 1%Z; VStamp 2%Z] ∧
  ¬ ∃ returns : list pyfloat,
      column (price_df_to_returns price_df) "End" = VFloat <$> returns.
Proof.
  cbv zeta. split; [|split; [|split; [|split]]].
  - split; [frame_wf|split]; simpl.
    + repeat constructor; lia.
    + repeat constructor; by vm_compute.
  - by repeat constructor.
  - done.
  - done.
  - intros (returns & H).
    change (column _ "End") with [VStamp 1%Z; VStamp 2%Z] in H.
    by destruct returns.
Qed.

(** ** Rows built from dicts *)

Lemma dict_lookup_fresh (m : gmap string value) (keys : list string)
    (vals : list value) (k : string) :
  k ∉ keys →
  foldl (λ m kv, <[kv.1 := kv.2]> m) m (zip keys vals) !! k = m !! k.
Proof.
  revert m vals. induction keys as [|k' keys IH]; intros m [|v vals] Hk; simpl; try done.
  apply not_elem_of_cons in Hk as [Hne Hk].
  rewrite IH by done. by rewrite lookup_insert_ne.
Qed.

(** The frames that [return_portfolio_values] builds share the column
    labels [cols] of its ReturnTable: distinct labels, the date column and
    [w] asset columns. *)
Section ValuePath.
  Context (cols : list string) (w : nat).
  Hypothesis cols_NoDup : NoDup cols.
  Hypothesis cols_length : length cols = S w.

Lemma dict_aligned_from (m : gmap string value) (keys : list string)
    (vals : list value) :
  NoDup keys → length vals = length keys →
  (λ c, default (VFloat NaN)
          (foldl (λ m kv, <[kv.1 := kv.2]> m) m (zip keys vals) !! c)) <$> keys = vals.
Proof.
  intros Hnd. revert m vals.
  induction Hnd as [|c keys Hc Hnd IH]; intros m [|v vals] Hlen; simplify_eq/=; [done|].
  f_equal.
  - rewrite dict_lookup_fresh by done. by rewrite lookup_insert_eq.
  - by apply IH.
Qed.

(** A dict with one value per label gives back the values in the order of
    the labels. *)
Lemma dict_aligned (vals : list value) :
  length vals = length cols →
  (λ c, default (VFloat NaN) (dict cols vals !! c)) <$> cols = vals.
Proof using cols_NoDup. by apply dict_aligned_from. Qed.

Lemma append_aligned (df : DataFrame nat value) (vals : list value) :
  columns df = cols → length vals = length cols →
  append df (dict cols vals) =
  mkDataFrame cols (seq 0 (S (length (values df)))) (values df ++ [vals]).
Proof using cols_NoDup.
  intros Hc Hlen. unfold append. by rewrite Hc, dict_aligned.
Qed.

(** ** One period *)

Lemma gross_floats (rs : list pyfloat) :
  comprehension (λ r, py_add r (VFloat (Fin 1))) (VFloat <$> rs) =
  Ok (VFloat <$> ((λ r, fadd r (Fin 1)) <$> rs)).
Proof.
  induction rs as [|r rs IH]; [done|].
  rewrite !fmap_cons. cbn [comprehension]. by rewrite IH.
Qed.

Lemma apply_returns_floats (xs gs : list pyfloat) :
  apply_returns (VFloat <$> xs) (VFloat <$> gs) = Ok (VFloat <$> zip_with fmul xs gs).
Proof.
  unfold apply_returns. revert gs.
  induction xs as [|x xs IH]; intros [|g gs]; try done.
  rewrite !fmap_cons. cbn [zip zip_with comprehension].
  fold (zip (VFloat <$> xs) (VFloat <$> gs)). by rewrite IH.
Qed.

Lemma grow_length (xs rs : list pyfloat) :
  length rs = length xs → length (grow xs rs) = length xs.
Proof. intros H. unfold grow. rewrite length_zip_with, length_fmap. lia. Qed.

(** A row with a return that is present stays a Series of objects. *)
Lemma has_return_object (row : list value) :
  has_return row → datetime_row row = false.
Proof.
  intros (a & Ha & Hna). unfold datetime_row.
  apply andb_false_iff. right. apply not_true_iff_false. intros Hall.
  rewrite forallb_forall in Hall.
  apply list_elem_of_In, Hall in Ha. simpl in Ha. congruence.
Qed.

Lemma add_1_from1_floats (d : Date) (rs : list pyfloat) :
  has_return (period_row (d, rs)) →
  add_1_from1 (period_row (d, rs)) = Ok (VFloat <$> ((λ r, fadd r (Fin 1)) <$> rs)).
Proof.
  intros H. unfold add_1_from1. rewrite has_return_object by done.
  apply gross_floats.
Qed.

(** ** The loop *)

(** The loop appends the path of the values to the table it starts from. *)
Lemma iterrows_loop_path (rows : list (Date * list value))
    (ps : list (Date * list pyfloat)) (xs : list pyfloat)
    (values_df : DataFrame nat value) :
  length xs = w →
  rows.*2 = period_row <$> ps →
  Forall (λ p, length p.2 = w) ps →
  Forall (λ p, has_return (period_row p)) ps →
  columns values_df = cols →
  index values_df = seq 0 (length (values values_df)) →
  iterrows_loop cols rows (VFloat <$> xs) values_df =
  Ok (mkDataFrame cols (seq 0 (length (values values_df) + length ps))
        (values values_df ++ path xs ps)).
Proof using cols_NoDup cols_length.
  intros Hxs Hrows Hps. revert rows xs values_df Hxs Hrows.
  induction Hps as [|[d rs] ps Hp Hps IH]; intros rows xs values_df Hxs Hrows Hhas Hc Hi.
  - destruct rows; [|done]. simpl. rewrite Nat.add_0_r, app_nil_r, <- Hc, <- Hi.
    by destruct values_df.
  - destruct rows as [|[i0 row] rows]; [done|]. simpl in Hrows.
    injection Hrows as Hrow Hrows. subst row. simpl in Hp.
    apply Forall_cons in Hhas as [Hhas1 Hhas].
    cbn [iterrows_loop].
    rewrite add_1_from1_floats by done. cbn [mbind result_mbind result_bind].
    rewrite apply_returns_floats. cbn [mbind result_mbind result_bind].
    change (py_getitem (period_row (d, rs)) 0) with (Ok (VStamp d)).
    cbn [mbind result_mbind result_bind].
    fold (grow xs rs).
    rewrite append_aligned; [|done|].
    2:{ simpl. rewrite length_fmap, grow_length by lia. lia. }
    rewrite IH.
    + cbn [values path fst snd]. f_equal. f_equal.
      * rewrite length_app. simpl. f_equal. lia.
      * by rewrite <- app_assoc.
    + rewrite grow_length; lia.
    + done.
    + done.
    + done.
    + cbn [index values]. by rewrite length_app, Nat.add_1_r.
Qed.

End ValuePath.

(** ** The table of values *)

Lemma ReturnTable_rows (returns : DataFrame Date value) (w : nat) :
  ReturnTable returns → length (columns returns) = S w →
  ∃ ps : list (Date * list pyfloat),
    values returns = period_row <$> ps ∧ Forall (λ p, length p.2 = w) ps.
Proof.
  intros ((_ & _ & Hw) & Hrows) Hcols.
  induction (values returns) as [|row rows IH]; [by exists []|].
  apply Forall_cons in Hw as [Hw1 Hw2].
  apply Forall_cons in Hrows as [(d & rs & ->) Hrows].
  destruct (IH Hw2 Hrows) as (ps & -> & Hps).
  exists ((d, rs) :: ps). split; [done|]. constructor; [|done].
  simpl in *. rewrite length_fmap in Hw1. lia.
Qed.

Lemma Qeq_bool_proper (x y : Q) : x == y → Qeq_bool x 0 = Qeq_bool y 0.
Proof.
  intros H. destruct (Qeq_bool y 0) eqn:E.
  - apply Qeq_bool_iff. apply Qeq_bool_iff in E. by rewrite H.
  - destruct (Qeq_bool x 0) eqn:E'; [|done].
    apply Qeq_bool_iff in E'. rewrite H in E'. apply Qeq_bool_iff in E'. congruence.
Qed.

Lemma Qneg_bool_proper (x y : Q) : x == y → Qneg_bool x = Qneg_bool y.
Proof.
  intros H. unfold Qneg_bool. f_equal. destruct (Qle_bool 0 y) eqn:E.
  - apply Qle_bool_iff. apply Qle_bool_iff in E. by rewrite H.
  - destruct (Qle_bool 0 x) eqn:E'; [|done].
    apply Qle_bool_iff in E'. rewrite H in E'. apply Qle_bool_iff in E'. congruence.
Qed.

(** [x * (r + 1)], as the code computes it, is [x * (1 + r)]. *)
Lemma grow_cell_comm (v r : pyfloat) :
  fmul v (fadd r (Fin 1)) ≡ fmul v (fadd (Fin 1) r).
Proof.
  destruct r as [x|s|]; destruct v as [y|t|]; simpl; try done.
  - change (y * (x + 1) == y * (1 + x)). ring.
  - assert (H : x + 1 == 1 + x) by ring.
    rewrite (Qeq_bool_proper _ _ H), (Qneg_bool_proper _ _ H).
    by destruct (Qeq_bool (1 + x) 0).
Qed.

Lemma path_length (xs : list pyfloat) (ps : list (Date * list pyfloat)) :
  length (path xs ps) = length ps.
Proof.
  revert xs. induction ps as [|p ps IH]; intros xs; simpl; [done|]. by rewrite IH.
Qed.

(** Each row of the path is the row above it, grown. *)
Lemma path_recurrence (ps : list (Date * list pyfloat)) (xs : list pyfloat)
    (e : value) (i k : nat) (r v : pyfloat) :
  ((period_row <$> ps) !! i ≫= (.!! S k)) = Some (VFloat r) →
  (((e :: (VFloat <$> xs)) :: path xs ps) !! i ≫= (.!! S k)) = Some (VFloat v) →
  (path xs ps !! i ≫= (.!! S k)) = Some (VFloat (fmul v (fadd r (Fin 1)))).
Proof.
  revert xs e i. induction ps as [|[d rs] ps IH]; intros xs e i Hr Hv; [done|].
  destruct i as [|i].
  - rewrite fmap_cons in Hr. cbn [path fst snd]. unfold period_row in Hr |- *.
    rewrite lookup_cons in Hr, Hv |- *.
    cbn [mbind option_bind fst snd] in Hr, Hv |- *.
    rewrite lookup_cons in Hr, Hv |- *.
    rewrite list_lookup_fmap in Hr, Hv |- *.
    unfold grow. rewrite lookup_zip_with, list_lookup_fmap.
    destruct (xs !! k) as [x|]; [|done]. destruct (rs !! k) as [r'|]; [|done].
    by simplify_eq/=.
  - cbn [path fst snd]. rewrite fmap_cons in Hr.
    rewrite !lookup_cons in Hr, Hv |- *.
    cbn [path fst snd] in Hv. unfold period_row at 1 in Hv. cbn [fst snd] in Hv.
    by eapply IH.
Qed.

Lemma cell_position {I A} (df : DataFrame I A) (i k : nat) (c : string) :
  NoDup (columns df) → columns df !! k = Some c →
  cell df i c = (values df !! i ≫= (.!! k)).
Proof.
  intros Hnd Hk. unfold cell. rewrite (column_position_lookup _ k) by done.
  by destruct (values df !! i).
Qed.

Lemma return_portfolio_values_unfold (starting_values : loc)
    (returns : DataFrame Date value) (σ : gmap loc (list value))
    (vs : list value) (date0 : Date) :
  index returns !! 0%nat = Some date0 → σ !! starting_values = Some vs →
  return_portfolio_values starting_values returns σ =
  (<[starting_values := vs ++ [VStamp date0]]> σ,
   iterrows_loop (columns returns) (iterrows returns) vs
     (append (empty_frame (columns returns))
        (dict (columns returns) (VStamp date0 :: vs)))).
Proof.
  intros Hd Hs. unfold return_portfolio_values, py_getitem. rewrite Hd.
  unfold mbind, M_bind, lift, list_append, read_list. rewrite Hs.
  rewrite lookup_insert_eq. unfold py_getitem_last. rewrite last_snoc.
  by rewrite upto_last_snoc.
Qed.

(** The caller's list after the call: the first start date has been
    appended to it, whatever the call returns afterwards. *)
Lemma return_portfolio_values_store (starting_values : loc)
    (returns : DataFrame Date value) (σ : gmap loc (list value))
    (vs : list value) (date0 : Date) :
  index returns !! 0%nat = Some date0 → σ !! starting_values = Some vs →
  (return_portfolio_values starting_values returns σ).1 =
  <[starting_values := vs ++ [VStamp date0]]> σ.
Proof.
  intros Hd Hs. by rewrite (return_portfolio_values_unfold _ _ _ vs date0).
Qed.

(** C1, amended.  For a ReturnTable with at least one row, in every row
    of which some return is present (not missing), and initial values, one
    per asset, held by the caller's list, [return_portfolio_values] returns
    a table with the columns of the ReturnTable and one row more; row 0
    holds the first start date and the initial values; and for every period
    [i] and asset the value in row [i+1] is the value in row [i] times
    [1 + r], [r] being the asset's return in row [i] of the ReturnTable. *)
Theorem return_portfolio_values_recurrence (starting_values : loc)
    (returns : DataFrame Date value) (σ : gmap loc (list value))
    (initial : list pyfloat) :
  ReturnTable returns → values returns ≠ [] →
  Forall has_return (values returns) →
  σ !! starting_values = Some (VFloat <$> initial) →
  S (length initial) = length (columns returns) →
  ∃ (σ' : gmap loc (list value)) (values_df : DataFrame nat value) (date0 : Date),
    return_portfolio_values starting_values returns σ = (σ', Ok values_df) ∧
    columns values_df = columns returns ∧
    length (values values_df) = S (length (values returns)) ∧
    index returns !! 0%nat = Some date0 ∧
    values values_df !! 0%nat = Some (VStamp date0 :: (VFloat <$> initial)) ∧
    ∀ (i : nat) (c : string) (r v : pyfloat),
      cell returns i c = Some (VFloat r) →
      cell values_df i c = Some (VFloat v) →
      ∃ v' : pyfloat,
        cell values_df (S i) c = Some (VFloat v') ∧ v' ≡ fmul v (fadd (Fin 1) r).
Proof.
  intros HRT Hne Hhas Hσ Hlen.
  destruct (ReturnTable_rows returns (length initial) HRT) as (ps & Hps & Hw); [done|].
  destruct HRT as ((Hnd & Hil & _) & _).
  rewrite Hps, Forall_fmap in Hhas.
  destruct (index returns) as [|date0 idx] eqn:Hidx.
  { destruct (values returns); [done|simpl in Hil; lia]. }
  rewrite (return_portfolio_values_unfold _ _ _ (VFloat <$> initial) date0)
    by (done || by rewrite Hidx).
  rewrite (append_aligned (columns returns)); cbn [empty_frame columns values];
    [|done|done|simpl; rewrite length_fmap; lia].
  rewrite (iterrows_loop_path (columns returns) (length initial) Hnd (eq_sym Hlen) _ ps);
    cbn [columns index values]; [|done| |done..].
  2:{ unfold iterrows. rewrite snd_zip; [done|]. rewrite Hidx. lia. }
  do 3 eexists. split; [done|]. cbn [columns index values app length].
  split; [done|]. split; [by rewrite path_length, Hps, length_fmap|].
  split; [done|]. split; [done|].
  intros i c r v Hr Hv.
  destruct (column_position c (columns returns)) as [k|] eqn:Hk; last first.
  { unfold cell in Hr. rewrite Hk in Hr. by destruct (values returns !! i). }
  apply column_position_Some in Hk.
  rewrite (cell_position _ _ k) in Hr by done.
  rewrite (cell_position _ _ k) in Hv by done.
  rewrite (cell_position _ _ k) by done.
  cbn [values] in Hv |- *. rewrite Hps in Hr.
  destruct k as [|k].
  { rewrite list_lookup_fmap in Hr. by destruct (ps !! i). }
  eexists. split; [|apply grow_cell_comm].
  rewrite lookup_cons. by eapply path_recurrence.
Qed.

Lemma return_portfolio_values_recurrence_witness :
  ∃ (σ' : gmap loc (list value)) (values_df : DataFrame nat value) (date0 : Date),
    return_portfolio_values 0%nat example_returns {[0%nat := VFloat <$> [Fin 100]]}
      = (σ', Ok values_df) ∧
    columns values_df = columns example_returns ∧
    length (values values_df) = S (length (values example_returns)) ∧
    index example_returns !! 0%nat = Some date0 ∧
    values values_df !! 0%nat = Some (VStamp date0 :: (VFloat <$> [Fin 100])) ∧
    ∀ (i : nat) (c : string) (r v : pyfloat),
      cell example_returns i c = Some (VFloat r) →
      cell values_df i c = Some (VFloat v) →
      ∃ v' : pyfloat,
        cell values_df (S i) c = Some (VFloat v') ∧ v' ≡ fmul v (fadd (Fin 1) r).
Proof.
  apply (return_portfolio_values_recurrence 0%nat example_returns
           {[0%nat := VFloat <$> [Fin 100]]} [Fin 100]).
  - split; [frame_wf|]. simpl. repeat constructor.
    + by exists 1%Z, [Fin (1 # 10)].
    + by exists 2%Z, [Fin (- 1 # 10)].
  - done.
  - simpl. repeat constructor.
    + exists (Fin (1 # 10)). split; [repeat constructor|done].
    + exists (Fin (- 1 # 10)). split; [repeat constructor|done].
  - done.
  - done.
Defined.

(** C2.  The price table [100, 110, 99] of one asset gives the returns
    [0.10, -0.10] with start dates [d0, d1] and end dates [d1, d2], and the
    initial value 100 with these returns gives back the values
    [100, 110, 99]. *)
Theorem round_trip_example (d0 d1 d2 : Date) (starting_values : loc) :
  let price_df := mkDataFrame ["A"] [d0; d1; d2] [[Fin 100]; [Fin 110]; [Fin 99]] in
  let returns := price_df_to_returns price_df in
  columns returns = ["End"; "A"] ∧
  index returns = [d0; d1] ∧
  column returns "End" = [VStamp d1; VStamp d2] ∧
  column returns "A" ≡ [VFloat (Fin (1 # 10)); VFloat (Fin (- 1 # 10))] ∧
  ∃ (σ' : gmap loc (list value)) (values_df : DataFrame nat value),
    return_portfolio_values starting_values returns
      {[starting_values := [VFloat (Fin 100)]]} = (σ', Ok values_df) ∧
    column values_df "End" = [VStamp d0; VStamp d1; VStamp d2] ∧
    column values_df "A" ≡ [VFloat (Fin 100); VFloat (Fin 110); VFloat (Fin 99)].
Proof.
  intros price_df returns.
  assert (Hret : returns = mkDataFrame ["End"; "A"] [d0; d1]
    [[VStamp d1; VFloat (Fin (110 / 100 - 1))];
     [VStamp d2; VFloat (Fin (99 / 110 - 1))]]) by done.
  rewrite Hret. repeat split.
  - by repeat constructor.
  - rewrite (return_portfolio_values_unfold _ _ _ [VFloat (Fin 100)] d0);
      [|done|by rewrite lookup_singleton_eq].
    do 2 eexists. split; [done|]. split; [done|].
    by repeat constructor.
Qed.

(** C3.  The call changes the caller's list: the list [[100]] passed as
    [starting_values] holds [[100, date0]] afterwards, [date0] being the
    first index label of the ReturnTable. *)
Theorem return_portfolio_values_mutates_argument :
  let returns :=
    mkDataFrame ["End"; "A"] [0%Z] [[VStamp 1%Z; VFloat (Fin (1 # 10))]] in
  let σ : gmap loc (list value) := {[0%nat := [VFloat (Fin 100)]]} in
  σ !! 0%nat = Some [VFloat (Fin 100)] ∧
  (return_portfolio_values 0%nat returns σ).1 !! 0%nat =
    Some [VFloat (Fin 100); VStamp 0%Z].
Proof.
  cbv zeta. split; [done|].
  rewrite (return_portfolio_values_store _ _ _ [VFloat (Fin 100)] 0%Z) by done.
  by rewrite lookup_insert_eq.
Qed.

(** C1 as stated fails for a ReturnTable without rows: [returns.index[0]]
    raises [IndexError] and no table is returned. *)
Lemma return_portfolio_values_empty_raises :
  let returns : DataFrame Date value := mkDataFrame ["End"; "A"] [] [] in
  let σ : gmap loc (list value) := {[0%nat := [VFloat (Fin 100)]]} in
  ReturnTable returns ∧
  return_portfolio_values 0%nat returns σ = (σ, Raise IndexError).
Proof.
  cbv zeta. split; [|done].
  split; [frame_wf|constructor].
Qed.

(** A row whose returns are all missing is typed [datetime64] by
    [iterrows], and [row[1:] + 1] raises [TypeError]: no table is returned
    for the returns of the prices [NaN, 100, 110], whose first period has
    no return. *)
Lemma return_portfolio_values_missing_row_raises :
  let price_df := mkDataFrame ["A"] [0; 1; 2]%Z [[NaN]; [Fin 100]; [Fin 110]] in
  let returns := price_df_to_returns price_df in
  let σ : gmap loc (list value) := {[0%nat := [VFloat (Fin 100)]]} in
  ReturnTable returns ∧
  values returns !! 0%nat = Some [VStamp 1%Z; VFloat NaN] ∧
  return_portfolio_values 0%nat returns σ =
    (<[0%nat := [VFloat (Fin 100); VStamp 0%Z]]> σ, Raise TypeError).
Proof.
  intros price_df returns σ.
  assert (Hret : returns = mkDataFrame ["End"; "A"] [0; 1]%Z
    [[VStamp 1%Z; VFloat NaN]; [VStamp 2%Z; VFloat (Fin (110 / 100 - 1))]]) by done.
  rewrite Hret. split; [|split].
  - split; [frame_wf|]. simpl. repeat constructor.
    + by exists 1%Z, [NaN].
    + by exists 2%Z, [Fin (110 / 100 - 1)].
  - done.
  - by rewrite (return_portfolio_values_unfold _ _ _ [VFloat (Fin 100)] 0%Z).
Qed.

(** * Further properties *)

(** ** The list functions *)

Lemma zip_with_app_longer_l {A B C} (f : A → B → C) (l e : list A) (k : list B) :
  length l = length k → zip_with f (l ++ e) k = zip_with f l k.
Proof.
  revert k. induction l as [|x l IH]; intros [|y k] Hlen; simplify_eq/=.
  - by destruct e.
  - f_equal. by apply IH.
Qed.

Lemma zip_with_app_longer_r {A B C} (f : A → B → C) (l : list A) (k e : list B) :
  length l = length k → zip_with f l (k ++ e) = zip_with f l k.
Proof.
  revert k. induction l as [|x l IH]; intros [|y k] Hlen; simplify_eq/=; [done|].
  f_equal. by apply IH.
Qed.

Lemma weighted_average_return_cons (x y : Q) (xs ys : list Q) :
  weighted_average_return (x :: xs) (y :: ys) == x * y + weighted_average_return xs ys.
Proof. unfold weighted_average_return. simpl. apply sum_cons. Qed.

Lemma radicand_cons (x y p : Q) (xs ys : list Q) :
  radicand (x :: xs) (y :: ys) p == y * (x - p) ^ 2 + radicand xs ys p.
Proof. unfold radicand. simpl. apply sum_cons. Qed.

Lemma sum_nil : sum [] == 0.
Proof. reflexivity. Qed.

Lemma pow_half_proper (x y : Q) : x == y → pow_half x = pow_half y.
Proof.
  intros H. unfold pow_half.
  assert (Hb : Qle_bool 0 x = Qle_bool 0 y).
  { destruct (Qle_bool 0 y) eqn:E.
    - apply Qle_bool_iff. apply Qle_bool_iff in E. by rewrite H.
    - destruct (Qle_bool 0 x) eqn:E'; [|done].
      apply Qle_bool_iff in E'. rewrite H in E'. apply Qle_bool_iff in E'. congruence. }
  rewrite Hb. destruct (Qle_bool 0 y); [|done]. f_equal. f_equal. by apply Qeq_eqR.
Qed.

(** X1.  [portfolio_weights] raises [ZeroDivisionError] for values that are
    not empty and sum to zero (a long and a short position of the same
    size). *)
Theorem portfolio_weights_zero_total (portfolio_values : list Q) :
  portfolio_values ≠ [] → sum portfolio_values == 0 →
  portfolio_weights portfolio_values = Raise ZeroDivisionError.
Proof.
  intros Hne Hs. destruct portfolio_values as [|x l]; [done|].
  unfold portfolio_weights. cbn [comprehension].
  by rewrite py_div_zero.
Qed.

Lemma portfolio_weights_zero_total_witness :
  portfolio_weights [1; -1] = Raise ZeroDivisionError.
Proof. apply (portfolio_weights_zero_total [1; -1]); [done|by vm_compute]. Defined.

(** X2.  [weighted_average_return] is linear in the weights: for two weight
    sequences of the same length, the return under the weights
    [a * u + b * v] is [a] times the return under [u] plus [b] times the
    return under [v]. *)
Theorem weighted_average_return_linear (a b : Q)
    (component_returns weights1 weights2 : list Q) :
  length weights1 = length weights2 →
  weighted_average_return component_returns
    (zip_with (λ u v, a * u + b * v) weights1 weights2)
  == a * weighted_average_return component_returns weights1
     + b * weighted_average_return component_returns weights2.
Proof.
  revert weights1 weights2.
  induction component_returns as [|x xs IH]; intros [|u us] [|v vs] Hlen;
    simplify_eq/=; try (unfold weighted_average_return; simpl; rewrite !sum_nil; ring).
  rewrite !weighted_average_return_cons, IH by done. ring.
Qed.

Lemma weighted_average_return_linear_witness :
  weighted_average_return [1 # 20; -1 # 25]
    (zip_with (λ u v, (1 # 4) * u + (3 # 4) * v) [3 # 5; 2 # 5] [1 # 2; 1 # 2])
  == (1 # 4) * weighted_average_return [1 # 20; -1 # 25] [3 # 5; 2 # 5]
     + (3 # 4) * weighted_average_return [1 # 20; -1 # 25] [1 # 2; 1 # 2].
Proof.
  apply (weighted_average_return_linear (1 # 4) (3 # 4) [1 # 20; -1 # 25]
           [3 # 5; 2 # 5] [1 # 2; 1 # 2]).
  reflexivity.
Defined.

(** X3.  Elements without a partner are ignored in silence: when one of
    the two sequences is longer than the other, [weighted_average_return]
    and [dispersion_calc] return what they return for the paired prefix. *)
Theorem unpaired_elements_ignored (component_returns weights extra : list Q)
    (portfolio_return : option Q) :
  length component_returns = length weights →
  weighted_average_return (component_returns ++ extra) weights
    = weighted_average_return component_returns weights ∧
  weighted_average_return component_returns (weights ++ extra)
    = weighted_average_return component_returns weights ∧
  dispersion_calc (component_returns ++ extra) weights portfolio_return
    = dispersion_calc component_returns weights portfolio_return ∧
  dispersion_calc component_returns (weights ++ extra) portfolio_return
    = dispersion_calc component_returns weights portfolio_return.
Proof.
  intros Hlen. unfold dispersion_calc, radicand, weighted_average_return.
  by rewrite !zip_with_app_longer_l, !zip_with_app_longer_r.
Qed.

Lemma unpaired_elements_ignored_witness :
  weighted_average_return ([1 # 20; -1 # 25] ++ [7]) [3 # 5; 2 # 5]
    = weighted_average_return [1 # 20; -1 # 25] [3 # 5; 2 # 5] ∧
  weighted_average_return [1 # 20; -1 # 25] ([3 # 5; 2 # 5] ++ [7])
    = weighted_average_return [1 # 20; -1 # 25] [3 # 5; 2 # 5] ∧
  dispersion_calc ([1 # 20; -1 # 25] ++ [7]) [3 # 5; 2 # 5] None
    = dispersion_calc [1 # 20; -1 # 25] [3 # 5; 2 # 5] None ∧
  dispersion_calc [1 # 20; -1 # 25] ([3 # 5; 2 # 5] ++ [7]) None
    = dispersion_calc [1 # 20; -1 # 25] [3 # 5; 2 # 5] None.
Proof.
  apply (unpaired_elements_ignored [1 # 20; -1 # 25] [3 # 5; 2 # 5] [7] None).
  reflexivity.
Defined.

(** The sum under the root, expanded around [p]. *)
Lemma radicand_expand (component_returns weights : list Q) (p : Q) :
  length component_returns = length weights →
  radicand component_returns weights p ==
    sum (zip_with (λ x y, y * (x * x)) component_returns weights)
    - 2 * p * weighted_average_return component_returns weights
    + p * p * sum weights.
Proof.
  revert weights. induction component_returns as [|x xs IH]; intros [|y ys] Hlen;
    simplify_eq/=.
  - unfold radicand, weighted_average_return. simpl. rewrite !sum_nil. ring.
  - rewrite radicand_cons, weighted_average_return_cons, !sum_cons, IH, Qsquare by done.
    ring.
Qed.

Lemma radicand_around_mean (component_returns weights : list Q) (p : Q) :
  length component_returns = length weights → sum weights == 1 →
  radicand component_returns weights p ==
    radicand component_returns weights
      (weighted_average_return component_returns weights)
    + (weighted_average_return component_returns weights - p) ^ 2.
Proof.
  intros Hlen Hs. rewrite !radicand_expand, Hs, Qsquare by done. ring.
Qed.

(** X4.  In exact arithmetic (rationals, the real square root): for
    weights that are not negative and sum to 1, the dispersion around an
    override is never smaller than the dispersion around the weighted
    average: the sum under the root grows by the square of the distance of
    the override from the weighted average. *)
Theorem dispersion_calc_least_at_mean (component_returns weights : list Q)
    (portfolio_return : Q) :
  length component_returns = length weights →
  Forall (λ y, 0 <= y) weights → sum weights == 1 →
  ∃ r r' : R,
    dispersion_calc component_returns weights None = Real r ∧
    dispersion_calc component_returns weights (Some portfolio_return) = Real r' ∧
    (r <= r')%R ∧
    radicand component_returns weights portfolio_return ==
      radicand component_returns weights
        (weighted_average_return component_returns weights)
      + (weighted_average_return component_returns weights - portfolio_return) ^ 2.
Proof.
  intros Hlen Hw Hs. unfold dispersion_calc.
  set (m := weighted_average_return component_returns weights).
  pose proof (sum_nonneg _ (deviations_nonneg m component_returns weights Hw)) as Hm.
  pose proof (sum_nonneg _ (deviations_nonneg portfolio_return component_returns weights Hw))
    as Hp.
  do 2 eexists. split; [by apply pow_half_nonneg|]. split; [by apply pow_half_nonneg|].
  split; [|by apply radicand_around_mean].
  apply sqrt_le_1_alt, Qle_Rle.
  rewrite (radicand_around_mean _ _ portfolio_return) by done. fold m.
  rewrite Qsquare. pose proof (Qsquare_nonneg (m - portfolio_return)). lra.
Qed.

Lemma dispersion_calc_least_at_mean_witness :
  ∃ r r' : R,
    dispersion_calc [1 # 20; -1 # 25] [3 # 5; 2 # 5] None = Real r ∧
    dispersion_calc [1 # 20; -1 # 25] [3 # 5; 2 # 5] (Some (1 # 100)) = Real r' ∧
    (r <= r')%R ∧
    radicand [1 # 20; -1 # 25] [3 # 5; 2 # 5] (1 # 100) ==
      radicand [1 # 20; -1 # 25] [3 # 5; 2 # 5]
        (weighted_average_return [1 # 20; -1 # 25] [3 # 5; 2 # 5])
      + (weighted_average_return [1 # 20; -1 # 25] [3 # 5; 2 # 5] - (1 # 100)) ^ 2.
Proof.
  apply (dispersion_calc_least_at_mean [1 # 20; -1 # 25] [3 # 5; 2 # 5] (1 # 100)).
  - reflexivity.
  - repeat constructor; by vm_compute.
  - by vm_compute.
Defined.

Lemma weighted_average_return_shift (c : Q) (component_returns weights : list Q) :
  length component_returns = length weights →
  weighted_average_return ((λ x, x + c) <$> component_returns) weights
  == weighted_average_return component_returns weights + c * sum weights.
Proof.
  revert weights. induction component_returns as [|x xs IH]; intros [|y ys] Hlen;
    simplify_eq/=.
  - unfold weighted_average_return. simpl. rewrite !sum_nil. ring.
  - rewrite !weighted_average_return_cons, sum_cons, IH by done. ring.
Qed.

Lemma radicand_shift (c p p' : Q) (component_returns weights : list Q) :
  p' == p + c →
  radicand ((λ x, x + c) <$> component_returns) weights p'
  == radicand component_returns weights p.
Proof.
  intros Hp. revert weights.
  induction component_returns as [|x xs IH]; intros [|y ys]; try reflexivity.
  rewrite fmap_cons, !radicand_cons, IH, !Qsquare, Hp. ring.
Qed.

(** X5.  In exact arithmetic (rationals, the real square root): for
    weights that sum to 1, adding the same constant to every component
    return adds it to the weighted average and leaves the dispersion
    unchanged. *)
Theorem dispersion_calc_shift_invariant (c : Q) (component_returns weights : list Q) :
  length component_returns = length weights → sum weights == 1 →
  weighted_average_return ((λ x, x + c) <$> component_returns) weights
    == weighted_average_return component_returns weights + c ∧
  dispersion_calc ((λ x, x + c) <$> component_returns) weights None
    = dispersion_calc component_returns weights None.
Proof.
  intros Hlen Hs.
  assert (Hm : weighted_average_return ((λ x, x + c) <$> component_returns) weights
               == weighted_average_return component_returns weights + c).
  { rewrite weighted_average_return_shift, Hs by done. ring. }
  split; [done|]. unfold dispersion_calc.
  apply pow_half_proper. by apply radicand_shift.
Qed.

Lemma dispersion_calc_shift_invariant_witness :
  weighted_average_return ((λ x, x + (1 # 100)) <$> [1 # 20; -1 # 25]) [3 # 5; 2 # 5]
    == weighted_average_return [1 # 20; -1 # 25] [3 # 5; 2 # 5] + (1 # 100) ∧
  dispersion_calc ((λ x, x + (1 # 100)) <$> [1 # 20; -1 # 25]) [3 # 5; 2 # 5] None
    = dispersion_calc [1 # 20; -1 # 25] [3 # 5; 2 # 5] None.
Proof.
  apply (dispersion_calc_shift_invariant (1 # 100) [1 # 20; -1 # 25] [3 # 5; 2 # 5]).
  - reflexivity.
  - by vm_compute.
Defined.

(** X6.  Weights are already normalised: [portfolio_weights] of the weights
    it returned returns the same weights. *)
Theorem portfolio_weights_idempotent (portfolio_values : list Q) :
  ¬ sum portfolio_values == 0 →
  ∃ w w' : list Q,
    portfolio_weights portfolio_values = Ok w ∧
    portfolio_weights w = Ok w' ∧ w' ≡ w.
Proof.
  intros Hs.
  assert (H1 : sum ((λ x, x / sum portfolio_values) <$> portfolio_values) == 1).
  { rewrite sum_div. by field. }
  do 2 eexists. split; [by apply portfolio_weights_ok|]. split.
  - apply portfolio_weights_ok. rewrite H1. lra.
  - revert H1. generalize (sum ((λ x, x / sum portfolio_values) <$> portfolio_values)).
    intros s1 H1.
    induction ((λ x : Q, x / sum portfolio_values) <$> portfolio_values) as [|y l IH];
      [constructor|].
    simpl. constructor; [|exact IH].
    change (y / s1 == y). rewrite H1. field.
Qed.

Lemma portfolio_weights_idempotent_witness :
  ∃ w w' : list Q,
    portfolio_weights [1; 3] = Ok w ∧ portfolio_weights w = Ok w' ∧ w' ≡ w.
Proof. apply (portfolio_weights_idempotent [1; 3]). by vm_compute. Defined.

Lemma sum_grown (vs rs : list Q) :
  length vs = length rs →
  sum (zip_with Qmult vs ((λ r, r + 1) <$> rs))
  == sum vs + sum (zip_with (λ x r, x * r) vs rs).
Proof.
  revert rs. induction vs as [|v vs IH]; intros [|r rs] Hlen; simplify_eq/=.
  - rewrite !sum_nil. ring.
  - rewrite !sum_cons, IH by done. ring.
Qed.

Lemma weighted_average_return_weights (s : Q) (rs vs : list Q) :
  weighted_average_return rs ((λ x, x / s) <$> vs)
  == sum (zip_with (λ x r, x * r) vs rs) / s.
Proof.
  assert (H0 : 0 == 0 / s) by (unfold Qdiv; ring).
  revert vs. induction rs as [|r rs IH]; intros [|v vs].
  - exact H0.
  - exact H0.
  - exact H0.
  - rewrite fmap_cons, weighted_average_return_cons. cbn [zip_with].
    rewrite sum_cons, IH. unfold Qdiv. ring.
Qed.

Lemma zip_with_fmul_Fin (vs gs : list Q) :
  zip_with fmul (Fin <$> vs) (Fin <$> gs) = Fin <$> zip_with Qmult vs gs.
Proof.
  revert gs. induction vs as [|v vs IH]; intros [|g gs]; simpl; try done.
  by rewrite IH.
Qed.

(** X7.  The functions compose, in exact rational arithmetic: growing
    every position by its return with [apply_returns] (factors [r + 1])
    grows the total value by the [weighted_average_return] of the returns
    under the [portfolio_weights] of the positions. *)
Theorem portfolio_growth (portfolio_values returns : list Q) :
  length portfolio_values = length returns →
  ¬ sum portfolio_values == 0 →
  ∃ (w ending_values : list Q),
    portfolio_weights portfolio_values = Ok w ∧
    apply_returns ((VFloat ∘ Fin) <$> portfolio_values)
      ((VFloat ∘ Fin) <$> ((λ r, r + 1) <$> returns))
      = Ok ((VFloat ∘ Fin) <$> ending_values) ∧
    sum ending_values ==
      sum portfolio_values * (1 + weighted_average_return returns w).
Proof.
  intros Hlen Hs.
  exists ((λ x, x / sum portfolio_values) <$> portfolio_values),
         (zip_with Qmult portfolio_values ((λ r, r + 1) <$> returns)).
  split; [by apply portfolio_weights_ok|]. split.
  - rewrite !list_fmap_compose, apply_returns_floats. by rewrite zip_with_fmul_Fin.
  - rewrite weighted_average_return_weights, sum_grown by done. by field.
Qed.

Lemma portfolio_growth_witness :
  ∃ (w ending_values : list Q),
    portfolio_weights [60; 40] = Ok w ∧
    apply_returns ((VFloat ∘ Fin) <$> [60; 40])
      ((VFloat ∘ Fin) <$> ((λ r, r + 1) <$> [1 # 20; -1 # 25]))
      = Ok ((VFloat ∘ Fin) <$> ending_values) ∧
    sum ending_values == sum [60; 40] * (1 + weighted_average_return [1 # 20; -1 # 25] w).
Proof.
  apply (portfolio_growth [60; 40] [1 # 20; -1 # 25]); [reflexivity|by vm_compute].
Defined.

(** ** Returns where prices are present *)

(** X8.  Where the prices of an asset are present on date [i] and on date
    [i+1], the return of period [i] is [price(i+1) / price(i) - 1], whatever
    is missing elsewhere in the table. *)
Theorem price_df_to_returns_present (price_df : DataFrame Date pyfloat)
    (i : nat) (c : string) (a b : pyfloat) :
  wf_frame price_df → c ≠ "End" →
  cell price_df i c = Some a → cell price_df (S i) c = Some b →
  isna a = false → isna b = false →
  cell (price_df_to_returns price_df) i c = Some (VFloat (change b a)).
Proof.
  intros Hwf Hc Ha Hb Hna Hnb. pose proof Hwf as (Hnd & Hlen & Hw).
  destruct (cell_inv _ _ _ _ Ha) as (ra & k & Hra & Hk & Hka).
  destruct (cell_inv _ _ _ _ Hb) as (rb & k' & Hrb & Hk' & Hkb).
  assert (k' = k) as -> by congruence.
  rewrite (price_df_to_returns_cell _ _ k) by (done || by apply column_position_Some).
  destruct (fillna_pad_present _ _ _ _ _ _ Hw Hra Hka Hna) as (fa & Hfa & Hfka).
  destruct (fillna_pad_present _ _ _ _ _ _ Hw Hrb Hkb Hnb) as (fb & Hfb & Hfkb).
  rewrite periods_lookup, Hfa, Hfb. cbn [mbind option_bind].
  by rewrite lookup_zip_with, Hfkb, Hfka.
Qed.

Lemma price_df_to_returns_present_witness :
  cell (price_df_to_returns late_listing) 0 "A"
  = Some (VFloat (change (Fin 110) (Fin 100))).
Proof.
  by apply (price_df_to_returns_present late_listing 0 "A" (Fin 100) (Fin 110));
    [frame_wf|..].
Defined.

(** X9.  A missing price right after a price that is present gives the
    period that ends at the gap the return 0: the gap is padded with the
    price before it. *)
Theorem price_df_to_returns_gap_zero (price_df : DataFrame Date pyfloat)
    (i : nat) (c : string) (p : Q) :
  wf_frame price_df → c ≠ "End" → ¬ p == 0 →
  cell price_df i c = Some (Fin p) → cell price_df (S i) c = Some NaN →
  ∃ x : Q,
    cell (price_df_to_returns price_df) i c = Some (VFloat (Fin x)) ∧ x == 0.
Proof.
  intros Hwf Hc Hp Ha Hb. pose proof Hwf as (Hnd & Hlen & Hw).
  destruct (cell_inv _ _ _ _ Ha) as (ra & k & Hra & Hk & Hka).
  destruct (cell_inv _ _ _ _ Hb) as (rb & k' & Hrb & Hk' & Hkb).
  assert (k' = k) as -> by congruence.
  rewrite (price_df_to_returns_cell _ _ k) by (done || by apply column_position_Some).
  destruct (fillna_pad_present _ _ _ _ _ _ Hw Hra Hka eq_refl) as (fa & Hfa & Hfka).
  destruct (fillna_pad_gap _ _ _ _ _ _ Hrb Hkb Hfa Hfka) as (fb & Hfb & Hfkb).
  rewrite periods_lookup, Hfa, Hfb. cbn [mbind option_bind].
  rewrite lookup_zip_with, Hfkb, Hfka. cbn [mbind option_bind fmap option_fmap option_map].
  destruct (change_same p Hp) as (x & -> & Hx). by exists x.
Qed.

Lemma price_df_to_returns_gap_zero_witness :
  ∃ x : Q,
    cell (price_df_to_returns
            (mkDataFrame ["A"] [0; 1; 2]%Z [[Fin 100]; [NaN]; [Fin 110]])) 0 "A"
      = Some (VFloat (Fin x)) ∧ x == 0.
Proof.
  by apply (price_df_to_returns_gap_zero
              (mkDataFrame ["A"] [0; 1; 2]%Z [[Fin 100]; [NaN]; [Fin 110]]) 0 "A" 100);
    [frame_wf|..].
Defined.

(** X10.  The result of [price_df_to_returns] on a well-formed price table
    without a column [End] is a ReturnTable as [return_portfolio_values]
    expects it: distinct labels, one index label per row, and every row an
    end date followed by one float per asset. *)
Theorem price_df_to_returns_ReturnTable (price_df : DataFrame Date pyfloat) :
  wf_frame price_df → "End" ∉ columns price_df →
  ReturnTable (price_df_to_returns price_df).
Proof.
  intros Hwf Hend. rewrite price_df_to_returns_eq by done.
  destruct Hwf as (Hnd & Hlen & Hw).
  pose proof (periods_width _ _ (filled_width (Some pad) _ _ Hw)) as Hpw.
  cbn [filled] in Hpw.
  split; [split; [|split]|]; cbn [columns index values].
  - by apply NoDup_cons.
  - unfold upto_last.
    rewrite length_zip_with, length_take, periods_length, fillna_pad_length, length_drop.
    lia.
  - apply Forall_lookup. intros i row Hrow.
    apply lookup_zip_with_Some in Hrow as (r & d & -> & Hr & _).
    rewrite Forall_lookup in Hpw. simpl. by rewrite length_fmap, (Hpw _ _ Hr).
  - apply Forall_lookup. intros i row Hrow.
    apply lookup_zip_with_Some in Hrow as (r & d & -> & _ & _). by exists d, r.
Qed.

Lemma price_df_to_returns_ReturnTable_witness :
  ReturnTable (price_df_to_returns example_prices).
Proof.
  apply (price_df_to_returns_ReturnTable example_prices); [frame_wf|].
  by apply (bool_decide_unpack _).
Defined.

(** ** Returns of positive prices *)

Lemma pad_row_price_cells (prev cur : list pyfloat) :
  Forall price_cell prev → Forall price_cell cur → Forall price_cell (pad_row prev cur).
Proof.
  intros Hp Hc. apply Forall_lookup. intros k a Hk.
  rewrite pad_row_lookup in Hk.
  destruct (prev !! k) as [p|] eqn:Ep; [|done].
  destruct (cur !! k) as [c|] eqn:Ec; [|done]. simplify_eq/=.
  rewrite Forall_lookup in Hp, Hc.
  destruct (isna c); [by eapply Hp | by eapply Hc].
Qed.

Lemma pad_from_price_cells (prev : list pyfloat) (vals : list (list pyfloat)) :
  Forall price_cell prev → Forall (Forall price_cell) vals →
  Forall (Forall price_cell) (pad_from prev vals).
Proof.
  intros Hp Hv. revert prev Hp.
  induction Hv as [|v vals Hv _ IH]; intros prev Hp; simpl; constructor.
  - by apply pad_row_price_cells.
  - apply IH. by apply pad_row_price_cells.
Qed.

Lemma fillna_pad_price_cells (vals : list (list pyfloat)) :
  Forall (Forall price_cell) vals → Forall (Forall price_cell) (fillna_pad vals).
Proof.
  destruct 1 as [|v vals Hv Hvals]; simpl; constructor; [done|].
  by apply pad_from_price_cells.
Qed.

Lemma change_price_cells (a b : pyfloat) :
  price_cell a → price_cell b →
  change b a = NaN ∨ ∃ x, change b a = Fin x ∧ -1 < x.
Proof.
  destruct a as [p|s|], b as [q|t|]; simpl; intros Ha Hb; try done; try by left.
  right. rewrite change_Fin by done. eexists. split; [done|].
  assert (0 < q / p) by (apply Qlt_shift_div_l; lra). lra.
Qed.

(** X11.  In exact rational arithmetic: for a PriceTable (positive or
    missing prices) every return of an asset is either missing or a
    rational number above -1. *)
Theorem price_df_to_returns_above_minus_one (price_df : DataFrame Date pyfloat)
    (i k : nat) (c : string) (v : value) :
  PriceTable price_df → columns price_df !! k = Some c → c ≠ "End" →
  cell (price_df_to_returns price_df) i c = Some v →
  v = VFloat NaN ∨ ∃ x : Q, v = VFloat (Fin x) ∧ -1 < x.
Proof.
  intros (Hwf & _ & Hpos) Hk Hc Hv.
  rewrite (price_df_to_returns_cell _ _ k) in Hv by done.
  rewrite periods_lookup in Hv.
  pose proof (fillna_pad_price_cells _ Hpos) as Hf. rewrite Forall_lookup in Hf.
  destruct (fillna_pad (values price_df) !! S i) as [later|] eqn:El; [|done].
  destruct (fillna_pad (values price_df) !! i) as [earlier|] eqn:Ee; [|done].
  cbn [mbind option_bind] in Hv. rewrite lookup_zip_with in Hv.
  destruct (later !! k) as [b|] eqn:Eb; [|done].
  destruct (earlier !! k) as [a|] eqn:Ea; [|done]. simplify_eq/=.
  pose proof (Hf _ _ El) as Hl. pose proof (Hf _ _ Ee) as He.
  rewrite Forall_lookup in Hl, He.
  destruct (change_price_cells a b) as [->|(x & -> & Hx)]; [by eapply He|by eapply Hl|..].
  - by left.
  - right. by exists x.
Qed.

Lemma price_df_to_returns_above_minus_one_witness :
  VFloat (change (Fin 52) (Fin 48)) = VFloat NaN ∨
  ∃ x : Q, VFloat (change (Fin 52) (Fin 48)) = VFloat (Fin x) ∧ -1 < x.
Proof.
  apply (price_df_to_returns_above_minus_one example_prices 1 1 "B"
           (VFloat (change (Fin 52) (Fin 48)))); [|done..].
  split; [frame_wf|split]; simpl.
  - repeat constructor; lia.
  - repeat constructor; by vm_compute.
Defined.

(** ** Returns between two dates *)

Lemma rows_at_absent (date : Date) (price_df : DataFrame Date pyfloat) :
  date ∉ index price_df → rows_at date price_df = [].
Proof.
  unfold rows_at, iterrows. generalize (values price_df).
  induction (index price_df) as [|d idx IH]; intros vals Hd; [done|].
  destruct vals as [|v vals]; [done|]. simpl.
  apply not_elem_of_cons in Hd as [Hne Hd].
  rewrite filter_cons_False by (simpl; congruence). by apply IH.
Qed.

(** X12.  [calculate_return] returns the empty list when the start date or
    the end date is not in the index of the price table; it raises
    nothing. *)
Theorem calculate_return_absent_date (start_date end_date : Date)
    (price_df : DataFrame Date pyfloat) :
  start_date ∉ index price_df ∨ end_date ∉ index price_df →
  calculate_return start_date end_date price_df = [].
Proof.
  intros [H|H]; unfold calculate_return; rewrite (rows_at_absent _ _ H); [|done].
  by destruct (rows_at end_date price_df).
Qed.

Lemma calculate_return_absent_date_witness :
  calculate_return 0%Z 5%Z example_prices = [].
Proof.
  apply (calculate_return_absent_date 0%Z 5%Z example_prices).
  right. by apply (bool_decide_unpack _).
Defined.

(** X13.  Returns chain: for three dates of a PriceTable without missing
    prices, in any order, [1 + return(a, c)] is
    [(1 + return(a, b)) * (1 + return(b, c))] for every asset. *)
Theorem calculate_return_chain (price_df : DataFrame Date pyfloat)
    (i j k : nat) (a b c : Date) :
  PriceTable price_df → complete price_df →
  index price_df !! i = Some a → index price_df !! j = Some b →
  index price_df !! k = Some c →
  ∃ rab rbc rac : list pyfloat,
    calculate_return a b price_df = [rab] ∧
    calculate_return b c price_df = [rbc] ∧
    calculate_return a c price_df = [rac] ∧
    length rac = length (columns price_df) ∧
    ∀ (n : nat) (z : pyfloat), rac !! n = Some z →
      ∃ x y : pyfloat, rab !! n = Some x ∧ rbc !! n = Some y ∧
        fadd (Fin 1) z ≡ fmul (fadd (Fin 1) x) (fadd (Fin 1) y).
Proof.
  intros HPT Hcomplete Hi Hj Hk.
  pose proof (priced_rows _ HPT Hcomplete) as Hpriced.
  destruct HPT as ((Hnd & Hlen & Hw) & Hsorted & _). apply sorted_NoDup in Hsorted.
  assert (Hrow : ∀ n d, index price_df !! n = Some d →
            ∃ v, values price_df !! n = Some v ∧ rows_at d price_df = [v]).
  { intros n d Hn. destruct (lookup_lt_is_Some_2 (values price_df) n) as [v Hv].
    { rewrite <- Hlen. by eapply lookup_lt_Some. }
    exists v. split; [done|]. by eapply rows_at_lookup. }
  destruct (Hrow _ _ Hi) as (va & Hva & Ha).
  destruct (Hrow _ _ Hj) as (vb & Hvb & Hb).
  destruct (Hrow _ _ Hk) as (vc & Hvc & Hc).
  rewrite Forall_lookup in Hw, Hpriced.
  exists (zip_with change vb va), (zip_with change vc vb), (zip_with change vc va).
  unfold calculate_return. rewrite Ha, Hb, Hc. do 3 (split; [done|]).
  split; [rewrite length_zip_with, (Hw _ _ Hva), (Hw _ _ Hvc); lia|].
  intros n z Hz. rewrite lookup_zip_with in Hz. rewrite !lookup_zip_with.
  destruct (vc !! n) as [qc|] eqn:Ec; [|done].
  destruct (va !! n) as [qa|] eqn:Ea; [|done].
  cbn [mbind option_bind] in Hz. injection Hz as <-.
  destruct (lookup_lt_is_Some_2 vb n) as [qb Eb].
  { rewrite (Hw _ _ Hvb), <- (Hw _ _ Hva). by eapply lookup_lt_Some. }
  rewrite Eb. cbn [mbind option_bind].
  pose proof (Hpriced _ _ Hva) as Hpa. pose proof (Hpriced _ _ Hvb) as Hpb.
  pose proof (Hpriced _ _ Hvc) as Hpc.
  unfold priced in Hpa, Hpb, Hpc. rewrite Forall_lookup in Hpa, Hpb, Hpc.
  destruct (Hpa _ _ Ea) as (pa & -> & Hposa).
  destruct (Hpb _ _ Eb) as (pb & -> & Hposb).
  destruct (Hpc _ _ Ec) as (pc & -> & Hposc).
  do 2 eexists. split; [reflexivity|]. split; [reflexivity|].
  rewrite !change_Fin by done. simpl.
  change (1 + (pc / pa - 1) == (1 + (pb / pa - 1)) * (1 + (pc / pb - 1))).
  field. lra.
Qed.

Lemma calculate_return_chain_witness :
  ∃ rab rbc rac : list pyfloat,
    calculate_return 0%Z 1%Z example_prices = [rab] ∧
    calculate_return 1%Z 2%Z example_prices = [rbc] ∧
    calculate_return 0%Z 2%Z example_prices = [rac] ∧
    length rac = length (columns example_prices) ∧
    ∀ (n : nat) (z : pyfloat), rac !! n = Some z →
      ∃ x y : pyfloat, rab !! n = Some x ∧ rbc !! n = Some y ∧
        fadd (Fin 1) z ≡ fmul (fadd (Fin 1) x) (fadd (Fin 1) y).
Proof.
  apply (calculate_return_chain example_prices 0 1 2 0%Z 1%Z 2%Z); [| |done..].
  - split; [frame_wf|split]; simpl.
    + repeat constructor; lia.
    + repeat constructor; by vm_compute.
  - by repeat constructor.
Defined.

(** ** The caller's list *)

(** X14.  For a table with at least one row, the call appends the first
    index label to the caller's list, whether it then returns or raises, and
    leaves every other list of the store as it was. *)
Theorem return_portfolio_values_store_effect (starting_values : loc)
    (returns : DataFrame Date value) (σ : gmap loc (list value))
    (vs : list value) (date0 : Date) :
  index returns !! 0%nat = Some date0 → σ !! starting_values = Some vs →
  (return_portfolio_values starting_values returns σ).1 !! starting_values
    = Some (vs ++ [VStamp date0]) ∧
  ∀ l : loc, l ≠ starting_values →
    (return_portfolio_values starting_values returns σ).1 !! l = σ !! l.
Proof.
  intros Hd Hs. rewrite (return_portfolio_values_store _ _ _ vs date0) by done.
  split; [by rewrite lookup_insert_eq|].
  intros l Hl. by rewrite lookup_insert_ne.
Qed.

Lemma return_portfolio_values_store_effect_witness :
  (return_portfolio_values 0%nat example_returns
     {[0%nat := [VFloat (Fin 100)]; 1%nat := [VFloat (Fin 7)]]}).1 !! 0%nat
    = Some ([VFloat (Fin 100)] ++ [VStamp 0%Z]) ∧
  ∀ l : loc, l ≠ 0%nat →
    (return_portfolio_values 0%nat example_returns
       {[0%nat := [VFloat (Fin 100)]; 1%nat := [VFloat (Fin 7)]]}).1 !! l
    = ({[0%nat := [VFloat (Fin 100)]; 1%nat := [VFloat (Fin 7)]]}
         : gmap loc (list value)) !! l.
Proof.
  by apply (return_portfolio_values_store_effect 0%nat example_returns
              {[0%nat := [VFloat (Fin 100)]; 1%nat := [VFloat (Fin 7)]]}
              [VFloat (Fin 100)] 0%Z).
Defined.

(** X15.  For a table without rows the call raises [IndexError] before it
    appends: the store is unchanged. *)
Theorem return_portfolio_values_no_rows (starting_values : loc)
    (returns : DataFrame Date value) (σ : gmap loc (list value)) :
  index returns = [] →
  return_portfolio_values starting_values returns σ = (σ, Raise IndexError).
Proof.
  intros H. unfold return_portfolio_values, py_getitem. by rewrite H.
Qed.

Lemma return_portfolio_values_no_rows_witness :
  return_portfolio_values 0%nat
    (price_df_to_returns (mkDataFrame ["A"] [7%Z] [[Fin 100]]))
    {[0%nat := [VFloat (Fin 100)]]}
  = ({[0%nat := [VFloat (Fin 100)]]}, Raise IndexError).
Proof.
  by apply (return_portfolio_values_no_rows 0%nat
              (price_df_to_returns (mkDataFrame ["A"] [7%Z] [[Fin 100]]))).
Defined.

Lemma gross_timestamp (l : list value) (d : Date) :
  VStamp d ∈ l → comprehension (λ r, py_add r (VFloat (Fin 1))) l = Raise TypeError.
Proof.
  induction l as [|v l IH]; intros Hin; [by apply elem_of_nil in Hin|].
  cbn [comprehension]. destruct v as [a|e]; [|done].
  apply elem_of_cons in Hin as [?|Hin]; [done|].
  cbn [py_add mbind result_mbind result_bind]. by rewrite IH.
Qed.

(** X16.  When the first row holds a timestamp after its first cell (a
    date column that is not the first column), the call raises [TypeError]
    at [row[1:] + 1], after the caller's list has been changed. *)
Theorem return_portfolio_values_timestamp_return (starting_values : loc)
    (returns : DataFrame Date value) (σ : gmap loc (list value))
    (vs row : list value) (date0 d : Date) :
  index returns !! 0%nat = Some date0 → values returns !! 0%nat = Some row →
  VStamp d ∈ from1 row →
  σ !! starting_values = Some vs →
  return_portfolio_values starting_values returns σ =
    (<[starting_values := vs ++ [VStamp date0]]> σ, Raise TypeError).
Proof.
  intros Hd Hrow Hin Hs.
  rewrite (return_portfolio_values_unfold _ _ _ vs date0) by done. f_equal.
  unfold iterrows.
  destruct (index returns) as [|d0 idx]; [done|].
  destruct (values returns) as [|r rows]; [done|]. simplify_eq/=.
  unfold add_1_from1. destruct (datetime_row row); [done|].
  by rewrite (gross_timestamp _ d).
Qed.

Lemma return_portfolio_values_timestamp_return_witness :
  return_portfolio_values 0%nat
    (mkDataFrame ["A"; "End"] [0%Z] [[VFloat (Fin (1 # 10)); VStamp 1%Z]])
    {[0%nat := [VFloat (Fin 100)]]}
  = (<[0%nat := [VFloat (Fin 100)] ++ [VStamp 0%Z]]> {[0%nat := [VFloat (Fin 100)]]},
     Raise TypeError).
Proof.
  apply (return_portfolio_values_timestamp_return 0%nat
           (mkDataFrame ["A"; "End"] [0%Z] [[VFloat (Fin (1 # 10)); VStamp 1%Z]])
           {[0%nat := [VFloat (Fin 100)]]} [VFloat (Fin 100)]
           [VFloat (Fin (1 # 10)); VStamp 1%Z] 0%Z 1%Z); [done|done| |done].
  simpl. constructor.
Defined.

(** ** Prices, returns, and prices again *)

Lemma zip_with_period_rows (P : list (list pyfloat)) (D : list Date) :
  zip_with (λ r d, VStamp d :: (VFloat <$> r)) P D = period_row <$> zip D P.
Proof.
  revert D. induction P as [|r P IH]; intros [|d D]; simpl; try done.
  by rewrite IH.
Qed.

Lemma VFloat_fmap_proper (xs ys : list pyfloat) :
  xs ≡ ys → (VFloat <$> xs) ≡ (VFloat <$> ys).
Proof. induction 1; simpl; by constructor. Qed.

(** Growing the prices of one date by the returns to the next date gives
    the prices of the next date. *)
Lemma grow_reproduces (xs v v' : list pyfloat) :
  xs ≡ v → priced v → priced v' → length v = length v' →
  grow xs (zip_with change v' v) ≡ v'.
Proof.
  intros Hx. revert v'. unfold grow.
  induction Hx as [|x p xs v Hxp Hx IH]; intros [|q v'] Hv Hv' Hlen; simplify_eq/=;
    [constructor|].
  apply Forall_cons in Hv as [(p0 & -> & Hp) Hv].
  apply Forall_cons in Hv' as [(q0 & -> & Hq) Hv'].
  destruct x as [x0| |]; try done.
  constructor; [|by apply IH].
  rewrite change_Fin by done. simpl.
  change (x0 == p0) in Hxp.
  change (x0 * (q0 / p0 - 1 + 1) == q0). rewrite Hxp. field. lra.
Qed.

Lemma path_reproduces (vals : list (list pyfloat)) (xs v : list pyfloat)
    (ds : list Date) :
  xs ≡ v → priced v → Forall priced vals →
  Forall (λ row, length row = length v) vals →
  length ds = length vals →
  path xs (zip ds (periods (v :: vals)))
  ≡ zip_with (λ d row, VStamp d :: (VFloat <$> row)) ds vals.
Proof.
  intros Hx Hv Hvals. revert xs v ds Hx Hv.
  induction Hvals as [|v' vals Hv' _ IH]; intros xs v ds Hx Hv Hw Hlen.
  - destruct ds; [|done]. constructor.
  - destruct ds as [|d ds]; [done|]. simpl in Hlen.
    apply Forall_cons in Hw as [Hw1 Hw2].
    rewrite periods_cons. cbn [zip zip_with path fst snd].
    assert (Hg : grow xs (zip_with change v' v) ≡ v') by (by apply grow_reproduces).
    constructor.
    + unfold period_row. cbn [fst snd]. constructor; [done|].
      by apply VFloat_fmap_proper.
    + apply IH; [done|done| |lia].
      eapply Forall_impl; [exact Hw2|]. simpl. intros; congruence.
Qed.

Lemma change_priced_present (v v' : list pyfloat) :
  priced v → priced v' → Forall (λ a, isna a = false) (zip_with change v' v).
Proof.
  intros Hv. revert v'.
  induction Hv as [|a v (p & -> & Hp) _ IH]; intros v' Hv'; [by destruct v'|].
  destruct Hv' as [|a' v' (q & -> & Hq) Hv']; simpl; constructor; [|by apply IH].
  by rewrite change_Fin.
Qed.

Lemma periods_priced_present (v : list pyfloat) (vals : list (list pyfloat)) :
  priced v → Forall priced vals →
  Forall (Forall (λ a, isna a = false)) (periods (v :: vals)).
Proof.
  intros Hv Hvals. revert v Hv.
  induction Hvals as [|v' vals Hv' _ IH]; intros v Hv; [constructor|].
  rewrite periods_cons. constructor; [by apply change_priced_present|by apply IH].
Qed.

Lemma has_return_present (d : Date) (rs : list pyfloat) :
  rs ≠ [] → Forall (λ a, isna a = false) rs → has_return (period_row (d, rs)).
Proof.
  intros Hne Hrs. destruct Hrs as [|r rs Hr _]; [done|].
  exists r. split; [|done]. unfold period_row. simpl. repeat constructor.
Qed.

(** X17.  Round trip: for a PriceTable with at least 2 rows, at least one
    asset column, no missing price and no column [End], the values
    reconstructed from the first row of prices and the table of returns are
    the prices again (equal as rationals), each row with its date in the
    column [End]. *)
Theorem round_trip (price_df : DataFrame Date pyfloat) (starting_values : loc)
    (σ : gmap loc (list value)) (first : list pyfloat) :
  PriceTable price_df → complete price_df → "End" ∉ columns price_df →
  columns price_df ≠ [] →
  (2 ≤ length (values price_df))%nat →
  values price_df !! 0%nat = Some first →
  σ !! starting_values = Some (VFloat <$> first) →
  ∃ (σ' : gmap loc (list value)) (values_df : DataFrame nat value),
    return_portfolio_values starting_values (price_df_to_returns price_df) σ
      = (σ', Ok values_df) ∧
    columns values_df = "End" :: columns price_df ∧
    values values_df
      ≡ zip_with (λ d row, VStamp d :: (VFloat <$> row))
          (index price_df) (values price_df).
Proof.
  intros HPT Hcomplete Hend Hasset Hrows Hfirst Hσ.
  pose proof (priced_rows _ HPT Hcomplete) as Hpriced.
  destruct HPT as (Hwf & _ & _). pose proof Hwf as (Hnd & Hlen & Hw).
  rewrite price_df_to_returns_eq by done.
  rewrite (fillna_pad_priced (length (columns price_df))) by done.
  destruct (values price_df) as [|v0 vals] eqn:Evals; [simpl in Hrows; lia|].
  destruct (index price_df) as [|d0 ds] eqn:Eidx; [done|].
  simpl in Hfirst, Hlen, Hrows. simplify_eq.
  apply Forall_cons in Hw as [Hw0 Hw]. apply Forall_cons in Hpriced as [Hp0 Hp].
  assert (Hd0 : upto_last (d0 :: ds) !! 0%nat = Some d0).
  { unfold upto_last. rewrite lookup_take_lt by (simpl; lia). done. }
  rewrite (return_portfolio_values_unfold _ _ _ (VFloat <$> first) d0) by done.
  cbn [columns index values]. rewrite drop_0 || change (drop 1 (d0 :: ds)) with ds.
  assert (Hnd' : NoDup ("End" :: columns price_df)) by (by apply NoDup_cons).
  rewrite (append_aligned ("End" :: columns price_df)); cbn [empty_frame columns values];
    [|done|done|simpl; by rewrite length_fmap, Hw0].
  rewrite zip_with_period_rows.
  rewrite (iterrows_loop_path ("End" :: columns price_df) (length (columns price_df))
             Hnd' eq_refl _ (zip ds (periods (first :: vals))));
    cbn [columns index values].
  - do 2 eexists. split; [done|]. split; [done|]. cbn [app zip_with].
    constructor; [done|]. apply path_reproduces; try done.
    eapply Forall_impl; [exact Hw|]. simpl. intros; congruence.
  - done.
  - unfold iterrows. cbn [index values]. rewrite snd_zip; [done|].
    unfold upto_last. rewrite length_take, length_fmap, length_zip, periods_length.
    simpl. lia.
  - apply Forall_lookup. intros i [d r] Hi. simpl.
    apply lookup_zip_with_Some in Hi as (d' & r' & ? & _ & Hr). simplify_eq.
    assert (Hpw : Forall (λ row, length row = length (columns price_df))
                    (periods (first :: vals)))
      by (apply periods_width; by constructor).
    rewrite Forall_lookup in Hpw. by eapply Hpw.
  - apply Forall_lookup. intros i [d r] Hi.
    apply lookup_zip_with_Some in Hi as (d' & r' & ? & _ & Hr). simplify_eq.
    assert (Hpw : Forall (λ row, length row = length (columns price_df))
                    (periods (first :: vals)))
      by (apply periods_width; by constructor).
    rewrite Forall_lookup in Hpw. specialize (Hpw _ _ Hr).
    pose proof (periods_priced_present first vals Hp0 Hp) as Hpres.
    rewrite Forall_lookup in Hpres. specialize (Hpres _ _ Hr).
    apply has_return_present; [|done].
    intros ->. simpl in Hpw. by destruct (columns price_df).
  - done.
  - done.
Qed.

Lemma round_trip_witness :
  ∃ (σ' : gmap loc (list value)) (values_df : DataFrame nat value),
    return_portfolio_values 0%nat (price_df_to_returns example_prices)
      {[0%nat := VFloat <$> [Fin 100; Fin 50]]} = (σ', Ok values_df) ∧
    columns values_df = "End" :: columns example_prices ∧
    values values_df
      ≡ zip_with (λ d row, VStamp d :: (VFloat <$> row))
          (index example_prices) (values example_prices).
Proof.
  apply (round_trip example_prices 0%nat {[0%nat := VFloat <$> [Fin 100; Fin 50]]}
           [Fin 100; Fin 50]).
  - split; [frame_wf|split]; simpl.
    + repeat constructor; lia.
    + repeat constructor; by vm_compute.
  - by repeat constructor.
  - by apply (bool_decide_unpack _).
  - done.
  - simpl. lia.
  - done.
  - done.
Defined.

(** Without an asset column the rows of the table of returns hold the end
    date only, [iterrows] types them [datetime64], and the call raises
    [TypeError]. *)
Lemma return_portfolio_values_no_assets_raises :
  let price_df : DataFrame Date pyfloat := mkDataFrame [] [0; 1]%Z [[]; []] in
  let σ : gmap loc (list value) := {[0%nat := []]} in
  PriceTable price_df ∧ complete price_df ∧
  values (price_df_to_returns price_df) = [[VStamp 1%Z]] ∧
  return_portfolio_values 0%nat (price_df_to_returns price_df) σ =
    (<[0%nat := [VStamp 0%Z]]> σ, Raise TypeError).
Proof.
  cbv zeta. split; [|split; [|split]].
  - split; [frame_wf|split]; simpl.
    + repeat constructor; lia.
    + by repeat constructor.
  - by repeat constructor.
  - done.
  - by rewrite (return_portfolio_values_unfold _ _ _ [] 0%Z).
Qed.

(** ** Calling twice with the same list *)






(** ** Values stay positive *)

Lemma dated_rows_periods (P : Q → Prop) (rows : list (list value)) :
  Forall (dated_row P) rows →
  ∃ qss : list (Date * list Q),
    rows = (period_row ∘ finite_period) <$> qss ∧
    Forall (λ p, Forall P p.2) qss.
Proof.
  induction 1 as [|row rows (d & qs & -> & Hqs) _ (qss & -> & Hqss)]; [by exists []|].
  exists ((d, qs) :: qss). split; [|by constructor].
  rewrite fmap_cons. f_equal. unfold period_row, finite_period. simpl.
  by rewrite list_fmap_compose.
Qed.

Lemma grow_Fin (qs rs : list Q) :
  grow (Fin <$> qs) (Fin <$> rs) = Fin <$> zip_with (λ q r, q * (r + 1)) qs rs.
Proof.
  unfold grow. revert rs. induction qs as [|q qs IH]; intros [|r rs]; simpl; try done.
  f_equal. apply IH.
Qed.

Lemma grown_positive (qs rs : list Q) :
  Forall (λ q, 0 < q) qs → Forall (λ r, -1 < r) rs →
  Forall (λ q, 0 < q) (zip_with (λ q r, q * (r + 1)) qs rs).
Proof.
  intros Hq. revert rs. induction Hq as [|q qs Hq _ IH]; intros rs Hr; [constructor|].
  destruct Hr as [|r rs Hr Hrs]; simpl; constructor; [|by apply IH].
  apply Qmult_lt_0_compat; lra.
Qed.

Lemma path_positive (qs : list Q) (qss : list (Date * list Q)) :
  Forall (λ q, 0 < q) qs → Forall (λ p, Forall (λ r, -1 < r) p.2) qss →
  Forall (dated_row (λ q, 0 < q))
    (path (Fin <$> qs) (finite_period <$> qss)).
Proof.
  intros Hq Hqss. revert qs Hq.
  induction Hqss as [|[d rs] qss Hrs _ IH]; intros qs Hq; [constructor|].
  rewrite fmap_cons. unfold finite_period at 1. cbn [path fst snd].
  rewrite grow_Fin. constructor.
  - exists d, (zip_with (λ q r, q * (r + 1)) qs rs).
    split; [|by apply grown_positive].
    unfold period_row. simpl. by rewrite list_fmap_compose.
  - apply IH. by apply grown_positive.
Qed.

(** X19.  In exact rational arithmetic: positive initial values, at least
    one, and rational returns above -1 give a table whose values are all
    positive rationals. *)
Theorem return_portfolio_values_positive (starting_values : loc)
    (returns : DataFrame Date value) (σ : gmap loc (list value))
    (initial : list Q) :
  wf_frame returns → values returns ≠ [] →
  Forall (dated_row (λ r, -1 < r)) (values returns) →
  initial ≠ [] →
  Forall (λ q, 0 < q) initial →
  σ !! starting_values = Some ((VFloat ∘ Fin) <$> initial) →
  S (length initial) = length (columns returns) →
  ∃ (σ' : gmap loc (list value)) (values_df : DataFrame nat value),
    return_portfolio_values starting_values returns σ = (σ', Ok values_df) ∧
    Forall (dated_row (λ q, 0 < q)) (values values_df).
Proof.
  intros (Hnd & Hil & Hw) Hne Hrows Hinit Hq Hσ Hlen.
  destruct (dated_rows_periods _ _ Hrows) as (qss & Hps & Hqss).
  assert (Hwidth : Forall (λ p : Date * list Q, length p.2 = length initial) qss).
  { apply Forall_lookup. intros i [d rs] Hi.
    rewrite Hps in Hw. rewrite Forall_lookup in Hw.
    specialize (Hw i (period_row (finite_period (d, rs)))).
    rewrite list_lookup_fmap, Hi in Hw. specialize (Hw eq_refl).
    unfold period_row, finite_period in Hw. cbn [fst snd length] in Hw |- *.
    rewrite !length_fmap in Hw. lia. }
  destruct (index returns) as [|date0 idx] eqn:Hidx.
  { destruct (values returns); [done|simpl in Hil; lia]. }
  rewrite list_fmap_compose in Hσ.
  rewrite (return_portfolio_values_unfold _ _ _ (VFloat <$> (Fin <$> initial)) date0)
    by (done || by rewrite Hidx).
  rewrite (append_aligned (columns returns)); cbn [empty_frame columns values];
    [|done|done|simpl; rewrite !length_fmap; lia].
  assert (Hlen' : length (columns returns) = S (length (Fin <$> initial)))
    by (by rewrite length_fmap).
  rewrite (iterrows_loop_path (columns returns) (length (Fin <$> initial)) Hnd Hlen' _
             (finite_period <$> qss));
    cbn [columns index values]; [|done| | | |done..].
  - do 2 eexists. split; [done|]. cbn [app]. constructor.
    + exists date0, initial. split; [|done]. by rewrite list_fmap_compose.
    + by apply path_positive.
  - unfold iterrows. rewrite snd_zip by (rewrite Hidx; lia).
    by rewrite Hps, list_fmap_compose.
  - apply Forall_fmap. eapply Forall_impl; [exact Hwidth|].
    intros [d rs] H. simpl in *. by rewrite !length_fmap.
  - apply Forall_fmap. eapply Forall_impl; [exact Hwidth|].
    intros [d rs] H. simpl in H.
    destruct rs as [|r rs]; [by destruct initial|].
    exists (Fin r). split; [|done]. unfold period_row, finite_period. simpl.
    repeat constructor.
Qed.

Lemma return_portfolio_values_positive_witness :
  ∃ (σ' : gmap loc (list value)) (values_df : DataFrame nat value),
    return_portfolio_values 0%nat example_returns
      {[0%nat := (VFloat ∘ Fin) <$> [100]]} = (σ', Ok values_df) ∧
    Forall (dated_row (λ q, 0 < q)) (values values_df).
Proof.
  apply (return_portfolio_values_positive 0%nat example_returns
           {[0%nat := (VFloat ∘ Fin) <$> [100]]} [100]).
  - frame_wf.
  - done.
  - simpl. repeat constructor.
    + exists 1%Z, [1 # 10]. split; [done|]. repeat constructor; by vm_compute.
    + exists 2%Z, [- 1 # 10]. split; [done|]. repeat constructor; by vm_compute.
  - done.
  - repeat constructor; by vm_compute.
  - done.
  - done.
Defined.

(** X20.  In exact arithmetic (rational returns, weights and override,
    the real square root), with no weight negative: [dispersion_calc] with
    an override is a real number that is not negative, and it is 0 exactly
    when every component return paired with a weight equals the override or
    has weight 0. *)
Theorem dispersion_calc_override_zero_iff (component_returns weights : list Q)
    (portfolio_return : Q) :
  Forall (λ y, 0 <= y) weights →
  ∃ r : R,
    dispersion_calc component_returns weights (Some portfolio_return) = Real r ∧
    (0 <= r)%R ∧
    (r = 0%R ↔
     Forall (λ xy, xy.1 == portfolio_return ∨ xy.2 == 0)
       (zip component_returns weights)).
Proof.
  intros Hw. unfold dispersion_calc.
  pose proof (deviations_nonneg portfolio_return component_returns weights Hw) as Hd.
  pose proof (sum_nonneg _ Hd) as Hs.
  eexists. split; [by apply pow_half_nonneg|]. split; [apply sqrt_pos|].
  rewrite sqrt_Q2R_zero_iff by done. unfold radicand.
  rewrite sum_zero_iff by done. apply deviations_zero_iff.
Qed.

Lemma dispersion_calc_override_zero_iff_witness :
  ∃ r : R,
    dispersion_calc [1 # 20; -1 # 25] [3 # 5; 2 # 5] (Some (1 # 100)) = Real r ∧
    (0 <= r)%R ∧
    (r = 0%R ↔
     Forall (λ xy, xy.1 == 1 # 100 ∨ xy.2 == 0) (zip [1 # 20; -1 # 25] [3 # 5; 2 # 5])).
Proof.
  apply (dispersion_calc_override_zero_iff [1 # 20; -1 # 25] [3 # 5; 2 # 5] (1 # 100)).
  repeat constructor; by vm_compute.
Defined.

Lemma weighted_average_return_between (lo hi : Q)
    (component_returns weights : list Q) :
  length component_returns = length weights →
  Forall (λ y, 0 <= y) weights →
  Forall (λ x, lo <= x ∧ x <= hi) component_returns →
  lo * sum weights <= weighted_average_return component_returns weights ∧
  weighted_average_return component_returns weights <= hi * sum weights.
Proof.
  intros Hlen Hw. revert component_returns Hlen.
  induction Hw as [|y ws Hy _ IH]; intros [|x xs] Hlen Hx; simplify_eq/=.
  - unfold weighted_average_return. simpl. rewrite !sum_nil. lra.
  - apply Forall_cons in Hx as [[Hlo Hhi] Hx].
    destruct (IH xs) as [IH1 IH2]; [done..|].
    rewrite weighted_average_return_cons, sum_cons.
    assert (lo * y <= x * y) by (apply Qmult_le_compat_r; lra).
    assert (x * y <= hi * y) by (apply Qmult_le_compat_r; lra).
    lra.
Qed.

(** X21.  In exact rational arithmetic: for weights that are not negative
    and sum to 1, the weighted average return lies between any lower and
    upper bound of the component returns. *)
Theorem weighted_average_return_bounded (lo hi : Q)
    (component_returns weights : list Q) :
  length component_returns = length weights →
  Forall (λ y, 0 <= y) weights → sum weights == 1 →
  Forall (λ x, lo <= x ∧ x <= hi) component_returns →
  lo <= weighted_average_return component_returns weights ∧
  weighted_average_return component_returns weights <= hi.
Proof.
  intros Hlen Hw Hs Hx.
  destruct (weighted_average_return_between lo hi _ _ Hlen Hw Hx) as [H1 H2].
  rewrite Hs in H1, H2. lra.
Qed.

Lemma weighted_average_return_bounded_witness :
  (-1 # 25) <= weighted_average_return [1 # 20; -1 # 25] [3 # 5; 2 # 5] ∧
  weighted_average_return [1 # 20; -1 # 25] [3 # 5; 2 # 5] <= 1 # 20.
Proof.
  apply (weighted_average_return_bounded (-1 # 25) (1 # 20)
           [1 # 20; -1 # 25] [3 # 5; 2 # 5]).
  - reflexivity.
  - repeat constructor; by vm_compute.
  - by vm_compute.
  - repeat constructor; by vm_compute.
Defined.
